(** * bashdrop-server: a one-shot TCP relay (upload once, then download once)

    A shallow embedding of [bashdrop-server.py].  The program talks to
    sockets and to the file system, so the functions of the source become
    computations in a small monad: a state (the staging directory, the
    staged file, the local [size] of [accept_upload], the timeout of the
    current connection, the errors the file system has in store for the
    writer), an outcome (normal return, a raised Python exception, or
    blocking for ever), and the list of calls made to the outside world,
    in order.

    What the outside world does is an input: the script of each upload
    connection (what every [recv] yields), the result of every [accept],
    of every [sendall], of every [open] and [write] of the staged file,
    and so on. *)

From Stdlib Require Import List ZArith Lia Bool String Ascii QArith Qround.
From Stdlib Require Import Strings.Byte.
From Stdlib Require DecimalString.
Import ListNotations.

Set Implicit Arguments.

Local Open Scope Z_scope.

(** ** Tunables (lines 35-37) *)

Definition DEFAULT_PORT : Z := 9000.
Definition CHUNK_SIZE : Z := 131072.
Definition PROBE_WAIT : Q := 2 # 1.

(** ** Data *)

Definition bytes := list byte.

(** [not b] of Python on a bytes object: true on [b""] only. *)
Definition is_empty (b : bytes) : bool :=
  match b with
  | [] => true
  | _ :: _ => false
  end.

Definition len (b : bytes) : Z := Z.of_nat (List.length b).

(** The exceptions the program can meet.  [socket.timeout] and every other
    error of a socket or file call are subclasses of [Exception];
    [KeyboardInterrupt] and [SystemExit] are not. *)
Inductive exn : Type :=
| KeyboardInterrupt
| socket_timeout
| OSError
| SystemExit (code : Z).

(** [except Exception] *)
Definition is_Exception (e : exn) : bool :=
  match e with
  | socket_timeout | OSError => true
  | KeyboardInterrupt | SystemExit _ => false
  end.

(** [except socket.timeout] *)
Definition is_socket_timeout (e : exn) : bool :=
  match e with
  | socket_timeout => true
  | _ => false
  end.

(** [except KeyboardInterrupt] *)
Definition is_KeyboardInterrupt (e : exn) : bool :=
  match e with
  | KeyboardInterrupt => true
  | _ => false
  end.

(** What one [conn.recv(CHUNK_SIZE)] yields: a chunk ([b""] is the end of the
    stream) or an exception.  The operating system cuts the stream into
    chunks of at most [CHUNK_SIZE] bytes as it pleases; nothing below
    depends on where it cuts. *)
Inductive recv_outcome : Type :=
| Chunk (data : bytes)
| RecvRaises (e : exn).

(** An upload connection is the script of its successive [recv] results.
    When the script is over the peer stays silent for ever. *)
Definition connection := list recv_outcome.

(** What one [up_sock.accept()] yields. *)
Inductive accept_outcome (C : Type) : Type :=
| Accepted (conn : C)
| AcceptRaises (e : exn).

Arguments Accepted {C} conn.
Arguments AcceptRaises {C} e.

(** What one [conn.sendall(chunk)] does: it sends the whole chunk, or it
    raises after [sent] bytes of the chunk have left. *)
Inductive send_outcome : Type :=
| SendOk
| SendRaises (e : exn) (sent : nat).

(** A download connection: the results of its [sendall] calls (every call
    after the script is over succeeds) and of the final [shutdown]. *)
Record download_connection : Type := {
  sends : list send_outcome;
  shutdown_raises : bool
}.

(** The calls to the outside world that the claims speak of. *)
Inductive event : Type :=
| Listen (port : Z)                    (* listen_once returned a listening socket *)
| CloseListener (port : Z)             (* up_sock.close() / down_sock.close() *)
| Accept                               (* accept() returned a connection *)
| SetTimeout (t : option Q)            (* conn.settimeout(t) *)
| Recv (t : option Q) (data : bytes)   (* conn.recv under timeout t; b"" when nothing came *)
| CloseConn                            (* conn.close() *)
| OpenWrite                            (* open(staged_path, "wb") *)
| Write (data : bytes)                 (* f.write(data) *)
| OpenRead                             (* open(staged_path, "rb") *)
| Read (data : bytes)                  (* f.read(CHUNK_SIZE) *)
| CloseFile                            (* leaving the with-block of the file *)
| Send (data : bytes)                  (* bytes that left through conn.sendall *)
| Shutdown                             (* conn.shutdown(SHUT_WR) *)
| Mkdtemp                              (* tempfile.mkdtemp *)
| Remove                               (* os.remove(staged_path) *)
| Rmdir                                (* os.rmdir(tmp_dir) *)
| Print (line : string).               (* print(line) *)

(** The state the computations thread. *)
Record state : Type := {
  tmp_dir : bool;                (* the staging directory exists *)
  staged : option bytes;         (* content of the staged file, [None] when absent *)
  size : Z;                      (* the local [size] of accept_upload *)
  conn_timeout : option Q;       (* timeout of the current connection *)
  file_faults : list bool        (* what the file system answers to the next calls
                                    that open the staged file for writing or write
                                    to it: [true] when the call raises; after the
                                    list every call succeeds *)
}.

Definition set_tmp_dir (b : bool) (s : state) : state :=
  {| tmp_dir := b; staged := staged s; size := size s; conn_timeout := conn_timeout s;
     file_faults := file_faults s |}.
Definition set_staged (f : option bytes) (s : state) : state :=
  {| tmp_dir := tmp_dir s; staged := f; size := size s; conn_timeout := conn_timeout s;
     file_faults := file_faults s |}.
Definition set_size (n : Z) (s : state) : state :=
  {| tmp_dir := tmp_dir s; staged := staged s; size := n; conn_timeout := conn_timeout s;
     file_faults := file_faults s |}.
Definition set_conn_timeout (t : option Q) (s : state) : state :=
  {| tmp_dir := tmp_dir s; staged := staged s; size := size s; conn_timeout := t;
     file_faults := file_faults s |}.
Definition set_file_faults (fs : list bool) (s : state) : state :=
  {| tmp_dir := tmp_dir s; staged := staged s; size := size s;
     conn_timeout := conn_timeout s; file_faults := fs |}.

Definition initial_state : state :=
  {| tmp_dir := false; staged := None; size := 0; conn_timeout := None;
     file_faults := [] |}.

(** ** The monad *)

Inductive outcome (A : Type) : Type :=
| Returns (a : A)
| Raises (e : exn)
| Hangs.

Arguments Returns {A} a.
Arguments Raises {A} e.
Arguments Hangs {A}.

Record run (A : Type) : Type := Run {
  result : outcome A;
  final : state;
  events : list event
}.

Definition M (A : Type) : Type := state -> run A.

Definition ret {A} (a : A) : M A :=
  fun s => Run (Returns a) s [].

Definition bind {A B} (m : M A) (k : A -> M B) : M B :=
  fun s =>
    match m s with
    | Run (Returns a) s1 e1 =>
        match k a s1 with
        | Run o s2 e2 => Run o s2 (e1 ++ e2)
        end
    | Run (Raises e) s1 e1 => Run (Raises e) s1 e1
    | Run Hangs s1 e1 => Run Hangs s1 e1
    end.

Definition raise {A} (e : exn) : M A :=
  fun s => Run (Raises e) s [].

Definition hang {A} : M A :=
  fun s => Run Hangs s [].

Definition emit (e : event) : M unit :=
  fun s => Run (Returns tt) s [e].

Definition get {A} (f : state -> A) : M A :=
  fun s => Run (Returns (f s)) s [].

Definition modify (f : state -> state) : M unit :=
  fun s => Run (Returns tt) (f s) [].

(** [try: m  except <catches>: handler] *)
Definition try_except {A} (m : M A) (catches : exn -> bool) (handler : M A) : M A :=
  fun s =>
    match m s with
    | Run (Raises e) s1 e1 =>
        if catches e then
          match handler s1 with
          | Run o s2 e2 => Run o s2 (e1 ++ e2)
          end
        else Run (Raises e) s1 e1
    | r => r
    end.

(** [try: m  finally: fin].  When [fin] itself raises, its exception
    replaces the outcome of [m]. *)
Definition try_finally {A} (m : M A) (fin : M unit) : M A :=
  fun s =>
    match m s with
    | Run Hangs s1 e1 => Run Hangs s1 e1
    | Run o s1 e1 =>
        match fin s1 with
        | Run (Returns _) s2 e2 => Run o s2 (e1 ++ e2)
        | Run (Raises e) s2 e2 => Run (Raises e) s2 (e1 ++ e2)
        | Run Hangs s2 e2 => Run Hangs s2 (e1 ++ e2)
        end
    end.

Declare Scope py_scope.
Delimit Scope py_scope with py.
Notation "x <- m ;; k" := (bind m (fun x => k))
  (at level 61, m at next level, right associativity) : py_scope.
Notation "m ;; k" := (bind m (fun _ => k))
  (at level 61, right associativity) : py_scope.
Local Open Scope py_scope.

(** [try: m  except Exception: pass] *)
Definition try_pass (m : M unit) : M unit :=
  try_except m is_Exception (ret tt).

(** ** Sockets and files *)

(** [listen_once] (lines 64-69): socket, setsockopt, bind, listen.
    [bind_error] is what the operating system answers to these calls:
    [None] when they succeed, the exception otherwise (the port is taken,
    for instance). *)
Definition listen_once (port : Z) (bind_error : option exn) : M unit :=
  match bind_error with
  | Some e => raise e
  | None => emit (Listen port)
  end.

(** [sock.close()] inside [try: ... except Exception: pass] *)
Definition close_listener (port : Z) : M unit :=
  try_pass (emit (CloseListener port)).

(** [conn.settimeout(t)] *)
Definition settimeout (t : option Q) : M unit :=
  modify (set_conn_timeout t) ;; emit (SetTimeout t).

(** [conn.recv(CHUNK_SIZE)]: the head of the script.  When the script is
    over nothing arrives any more: the call raises [socket.timeout] when a
    timeout is set and blocks for ever otherwise. *)
Definition recv (conn : connection) : M bytes :=
  fun s =>
    match conn with
    | Chunk data :: _ => Run (Returns data) s [Recv (conn_timeout s) data]
    | RecvRaises e :: _ => Run (Raises e) s [Recv (conn_timeout s) []]
    | [] =>
        match conn_timeout s with
        | Some _ => Run (Raises socket_timeout) s [Recv (conn_timeout s) []]
        | None => Run Hangs s [Recv None []]
        end
    end.

(** The next answer of the file system: [true] when the call raises. *)
Definition next_fault (s : state) : bool := hd false (file_faults s).

(** The state once the file system has given its next answer. *)
Definition after_call (s : state) : state :=
  set_file_faults (List.tl (file_faults s)) s.

(** A call to the file system on the staged file: it raises when the next
    answer of [file_faults] says so (the disk is full, the file cannot be
    created, ...). *)
Definition file_call : M unit :=
  fun s => Run (if next_fault s then Raises OSError else Returns tt) (after_call s) [].

(** [open(staged_path, "wb")]: creates the file or truncates it; raises
    when the directory is not there.  The state has one file, the one at
    [staged_path]. *)
Definition open_wb : M unit :=
  file_call ;;
  dir <- get tmp_dir ;;
  if dir then
    modify (set_staged (Some [])) ;; emit OpenWrite
  else raise OSError.

(** [f.write(data)]: a call that raises writes nothing. *)
Definition f_write (data : bytes) : M unit :=
  file_call ;;
  modify (fun s =>
            set_staged (Some (match staged s with
                              | Some old => old ++ data
                              | None => data
                              end)) s) ;;
  emit (Write data).

(** [size += n] *)
Definition size_add (n : Z) : M unit :=
  modify (fun s => set_size (size s + n) s).

(** ** The upload phase *)

(** The inner [while True] of accept_upload (lines 209-214). *)
Fixpoint copy_loop (conn : connection) : M unit :=
  match conn with
  | [] => recv [] ;; ret tt
  | _ :: rest =>
      data <- recv conn ;;
      if is_empty data then ret tt
      else
        f_write data ;;
        size_add (len data) ;;
        copy_loop rest
  end.

Inductive loop_ctl : Type := Break | Continue.

(** The body of the outer [while True] for one accepted connection: the
    [try] ... [except Exception] of lines 194-222. *)
Definition upload_attempt (conn : connection) : M loop_ctl :=
  try_except
    (settimeout (Some PROBE_WAIT) ;;
     first_chunk <- try_except (recv conn) is_socket_timeout (ret []) ;;
     settimeout None ;;
     if is_empty first_chunk then
       emit CloseConn ;;
       ret Continue
     else
       open_wb ;;
       try_finally
         (f_write first_chunk ;;
          size_add (len first_chunk) ;;
          copy_loop (tl conn))
         (emit CloseFile) ;;
       emit CloseConn ;;
       ret Break)
    is_Exception
    (try_pass (emit CloseConn) ;;
     ret Continue).

(** The outer [while True] (lines 192-222).  [ups] is what the successive
    [up_sock.accept()] calls yield; when it is over no client connects any
    more and [accept] blocks for ever.  An accepted socket starts without a
    timeout. *)
Fixpoint accept_loop (ups : list (accept_outcome connection)) : M unit :=
  match ups with
  | [] => hang
  | AcceptRaises e :: _ => raise e
  | Accepted conn :: rest =>
      emit Accept ;;
      modify (set_conn_timeout None) ;;
      ctl <- upload_attempt conn ;;
      match ctl with
      | Break => ret tt
      | Continue => accept_loop rest
      end
  end.

(** [accept_upload] (lines 188-228) *)
Definition accept_upload (port : Z) (bind_error : option exn)
    (ups : list (accept_outcome connection)) : M Z :=
  listen_once port bind_error ;;
  modify (set_size 0) ;;
  try_finally (accept_loop ups) (close_listener port) ;;
  get size.

(** ** The download phase *)

(** The successive non-empty results of [f.read(n)] on a regular file with
    content [data]: [n] bytes at a time, the last chunk shorter.  For [n > 0]
    every round consumes a byte, so [length data] rounds are enough
    ([chunks_concat] below). *)
Fixpoint chunks_fuel (fuel n : nat) (data : bytes) : list bytes :=
  match fuel with
  | O => []
  | S fuel' =>
      match data with
      | [] => []
      | _ :: _ => firstn n data :: chunks_fuel fuel' n (skipn n data)
      end
  end.

Definition chunks (n : nat) (data : bytes) : list bytes :=
  chunks_fuel (List.length data) n data.

(** [conn.sendall(chunk)] *)
Definition sendall (chunk : bytes) (o : send_outcome) : M unit :=
  match o with
  | SendOk => emit (Send chunk)
  | SendRaises e sent => emit (Send (firstn sent chunk)) ;; raise e
  end.

(** The [while True] of serve_download (lines 236-240): [reads] are the
    chunks the file still holds; after them [f.read] returns [b""]. *)
Fixpoint send_loop (reads : list bytes) (script : list send_outcome) : M unit :=
  match reads with
  | [] => emit (Read [])
  | chunk :: reads' =>
      emit (Read chunk) ;;
      sendall chunk (hd SendOk script) ;;
      send_loop reads' (tl script)
  end.

(** [open(staged_path, "rb")]: raises when the file is absent.  Reading
    back the file the process has just written is taken to succeed. *)
Definition open_rb : M bytes :=
  fun s =>
    match staged s with
    | Some content => Run (Returns content) s [OpenRead]
    | None => Run (Raises OSError) s []
    end.

(** [conn.shutdown(socket.SHUT_WR)] *)
Definition shutdown (conn : download_connection) : M unit :=
  emit Shutdown ;;
  if shutdown_raises conn then raise OSError else ret tt.

(** [down_sock.accept()]: [None] when no client ever connects. *)
Definition accept_download (dn : option (accept_outcome download_connection))
    : M download_connection :=
  match dn with
  | None => hang
  | Some (AcceptRaises e) => raise e
  | Some (Accepted conn) => emit Accept ;; ret conn
  end.

(** [serve_download] (lines 230-249) *)
Definition serve_download (port : Z) (bind_error : option exn)
    (dn : option (accept_outcome download_connection)) : M unit :=
  listen_once port bind_error ;;
  try_finally
    (conn <- accept_download dn ;;
     try_finally
       (content <- open_rb ;;
        try_finally
          (send_loop (chunks (Z.to_nat CHUNK_SIZE) content) (sends conn))
          (emit CloseFile) ;;
        try_pass (shutdown conn))
       (emit CloseConn))
    (close_listener port).

(** ** Text *)

Local Open Scope string_scope.

(** A Python [str] is kept as its UTF-8 bytes. *)

(** [len(s)]: the number of code points, which is the number of bytes that
    are not UTF-8 continuation bytes (10xxxxxx). *)
Fixpoint py_len (s : string) : Z :=
  match s with
  | EmptyString => 0
  | String c s' =>
      let n := nat_of_ascii c in
      if (128 <=? n)%nat && (n <? 192)%nat then py_len s' else 1 + py_len s'
  end.

(** [s * n] *)
Definition str_mul (s : string) (n : Z) : string :=
  String.concat "" (repeat s (Z.to_nat n)).

(** [str(n)] and [f"{n}"] on an int *)
Definition str_int (n : Z) : string :=
  DecimalString.NilZero.string_of_int (Z.to_int n).

(** [f"{q:.0f}"]: the nearest integer, ties to even. *)
Definition format_0f (q : Q) : string :=
  let f := Qfloor q in
  let r := Qminus q (inject_Z f) in
  match Qcompare r (1 # 2) with
  | Lt => str_int f
  | Gt => str_int (f + 1)
  | Eq => if Z.even f then str_int f else str_int (f + 1)
  end.

Definition ESC : string := String "027"%char "".
Definition NL : string := String "010"%char "".
Definition DQ : ascii := "034"%char.

(** The literals of the source that hold double quotes are written with a
    backquote for each of them; [dq] puts the double quotes back.  It is
    applied to literals only, never to a value of the program. *)
Fixpoint dq (s : string) : string :=
  match s with
  | EmptyString => EmptyString
  | String c s' => String (if Ascii.eqb c "`"%char then DQ else c) (dq s')
  end.

(** ANSI colors (lines 42-59) *)
Definition RESET := ESC ++ "[0m".
Definition BOLD := ESC ++ "[1m".
Definition DIM := ESC ++ "[2m".
Definition RED := ESC ++ "[31m".
Definition GREEN := ESC ++ "[32m".
Definition YELLOW := ESC ++ "[33m".
Definition BLUE := ESC ++ "[34m".
Definition MAG := ESC ++ "[35m".
Definition CYAN := ESC ++ "[36m".
Definition BRIGHT_RED := ESC ++ "[91m".
Definition BRIGHT_GREEN := ESC ++ "[92m".
Definition BRIGHT_YELLOW := ESC ++ "[93m".
Definition BRIGHT_BLUE := ESC ++ "[94m".
Definition BRIGHT_MAG := ESC ++ "[95m".
Definition BRIGHT_CYAN := ESC ++ "[96m".
Definition BRIGHT_WHITE := ESC ++ "[97m".

(** [string.ascii_letters + string.digits] *)
Definition alphabet : string :=
  "abcdefghijklmnopqrstuvwxyzABCDEFGHIJKLMNOPQRSTUVWXYZ" ++ "0123456789".

(** [secrets.choice(seq)] is [seq[randbelow(len(seq))]].  The operating
    system's randomness is an oracle: [randbelow i n] is what the [i]-th
    draw returns for the bound [n]. *)
Definition choice (randbelow : nat -> nat -> nat) (i : nat) (seq : string) : ascii :=
  nth (randbelow i (String.length seq)) (list_ascii_of_string seq) "000"%char.

(** [gen_password] (lines 71-73) *)
Definition gen_password (randbelow : nat -> nat -> nat) (n : nat) : string :=
  string_of_list_ascii (map (fun i => choice randbelow i alphabet) (seq 0 n)).

(** [print(line)] *)
Definition print (line : string) : M unit := emit (Print line).

(** [term_width] (lines 75-79).  [columns] is what
    [shutil.get_terminal_size((default, 24)).columns] gives, [None] when the
    call raises. *)
Definition term_width (columns : option Z) : Z :=
  match columns with
  | Some c => Z.max 60 c
  | None => 100
  end.

(** [hr] (lines 81-84) *)
Definition hr (columns : option Z) (ch color : string) (pad : Z) : string :=
  let w := term_width columns in
  let line := str_mul ch (Z.max 10 (w - pad)) in
  color ++ line ++ RESET.

(** [box_title] (lines 86-94) *)
Definition box_title (columns : option Z) (text color : string) : M unit :=
  let w := term_width columns in
  let label := " " ++ text ++ " " in
  let side := Z.max 0 ((w - py_len label - 2) / 2) in
  let left := str_mul "─" side in
  let right := str_mul "─" side in
  let right := if Z.ltb (py_len (left ++ label ++ right)) (w - 2) then right ++ "─" else right in
  print (color ++ "┌" ++ left ++ label ++ right ++ "┐" ++ RESET).

(** [box_footer] (lines 96-98) *)
Definition box_footer (columns : option Z) (color : string) : M unit :=
  let w := term_width columns in
  print (color ++ "└" ++ str_mul "─" (w - 2) ++ "┘" ++ RESET).

(** [mode_header] (lines 100-101) *)
Definition mode_header (name color : string) : M unit :=
  print (color ++ BOLD ++ "[" ++ name ++ "]" ++ RESET).

(** [cmd_block] (lines 103-106); its [color] argument is not used. *)
Definition cmd_block (columns : option Z) (cmd : string) : M unit :=
  print (hr columns "─" DIM 0) ;;
  print cmd ;;
  print (hr columns "─" DIM 0).

(** [info_kv] (lines 108-109) with its default colors *)
Definition info_kv (k v : string) : M unit :=
  print (DIM ++ k ++ ":" ++ RESET ++ " " ++ BRIGHT_WHITE ++ v ++ RESET).

(** [banner] (lines 111-120) *)
Definition banner (columns : option Z) (pub : string) (port : Z) (bname password : string)
    : M unit :=
  box_title columns "One-shot relay — upload once → then download once" BRIGHT_GREEN ;;
  print (DIM ++ "This server accepts a single upload, then serves that exact content once for download and exits." ++ RESET) ;;
  print "" ;;
  info_kv "Public host/IP" pub ;;
  info_kv "Port" (str_int port) ;;
  info_kv "Filename" bname ;;
  info_kv "Password (encrypted mode)" password ;;
  box_footer columns BRIGHT_GREEN ;;
  print "".

(** [_fn_cmd] (lines 122-123) *)
Definition _fn_cmd (body pw file_ : string) : string :=
  "d(){ " ++ body ++ " }; d " ++ pw ++ " " ++ file_.

(** [/dev/tcp/{pub}/{port}] *)
Definition dev_tcp (pub : string) (port : Z) : string :=
  "/dev/tcp/" ++ pub ++ "/" ++ str_int port.

(** [print_sender_commands] (lines 125-155) *)
Definition print_sender_commands (columns : option Z) (pub : string) (port : Z)
    (bname password : string) : M unit :=
  box_title columns "Sender (SOURCE)" BRIGHT_BLUE ;;
  print (DIM ++ "Choose ONE mode and run exactly as shown (bash required for /dev/tcp)." ++ RESET ++ NL) ;;

  mode_header "Plain" RED ;;
  cmd_block columns ("cat >" ++ dev_tcp pub port ++ " < " ++ bname) ;;
  cmd_block columns
    (dq "bash -c 'cat >`" ++ dev_tcp pub port ++ dq "` < `$1`' " ++ password ++ " " ++ bname) ;;

  mode_header "Plain+sha256sum" BRIGHT_YELLOW ;;
  cmd_block columns
    (_fn_cmd (dq "sha256sum `$2` && cat >`" ++ dev_tcp pub port ++ dq "` <`$2`;")
       password bname) ;;
  cmd_block columns
    (dq "bash -c 'f=`$1`;sha256sum `$f`&&cat >`" ++ dev_tcp pub port ++ dq "` < `$f`' "
       ++ password ++ " " ++ bname) ;;

  mode_header "Encrypted+sha256sum" BRIGHT_CYAN ;;
  cmd_block columns
    (_fn_cmd
       (dq "sha256sum `$2` && openssl enc -aes-256-cbc -pbkdf2 -salt -pass pass:$1 <`$2` >`"
          ++ dev_tcp pub port ++ dq "`;")
       password bname) ;;
  cmd_block columns
    ("bash -c '"
       ++ dq "f=`$1`;sha256sum `$f`&&"
       ++ dq "openssl enc -aes-256-cbc -pbkdf2 -salt -pass pass:`$0` < `$f` >`"
       ++ dev_tcp pub port ++ dq "`"
       ++ "' " ++ password ++ " " ++ bname) ;;

  box_footer columns BRIGHT_BLUE ;;
  print "".

(** [print_receiver_commands] (lines 157-186) *)
Definition print_receiver_commands (columns : option Z) (pub : string) (port : Z)
    (bname password : string) : M unit :=
  box_title columns "Receiver (DESTINATION) — run AFTER upload completes" BRIGHT_MAG ;;
  print (DIM ++ "Again, choose ONE mode. Start these only after the sender finishes the upload step." ++ RESET ++ NL) ;;

  mode_header "Plain" RED ;;
  cmd_block columns ("cat <" ++ dev_tcp pub port ++ " > " ++ bname) ;;
  cmd_block columns
    (dq "bash -c 'cat <`" ++ dev_tcp pub port ++ dq "` > `$1`' " ++ password ++ " " ++ bname) ;;

  mode_header "Plain+sha256sum" BRIGHT_YELLOW ;;
  cmd_block columns
    (_fn_cmd (dq "cat <`" ++ dev_tcp pub port ++ dq "` >`$2` && sha256sum `$2`;")
       password bname) ;;
  cmd_block columns
    (dq "bash -c 'f=`$1`;cat <`" ++ dev_tcp pub port ++ dq "` > `$f`&&sha256sum `$f`' "
       ++ password ++ " " ++ bname) ;;

  mode_header "Encrypted+sha256sum" BRIGHT_CYAN ;;
  cmd_block columns
    (_fn_cmd
       (dq "openssl enc -d -aes-256-cbc -pbkdf2 -pass pass:$1 <`" ++ dev_tcp pub port
          ++ dq "` >`$2` && sha256sum `$2`;")
       password bname) ;;
  cmd_block columns
    ("bash -c '"
       ++ dq "f=`$1`;openssl enc -d -aes-256-cbc -pbkdf2 -pass pass:`$0` < `"
       ++ dev_tcp pub port ++ dq "` > `$f`&&sha256sum `$f`"
       ++ "' " ++ password ++ " " ++ bname) ;;

  box_footer columns BRIGHT_CYAN ;;
  print "".

(** ** The program *)

(** The namespace [parser.parse_args()] returns (lines 252-259):
    [filename] and [port] with their defaults filled in, [password] [None]
    when the argument is absent. *)
Record arguments : Type := {
  args_pub : string;
  args_filename : string;
  args_password : option string;
  args_port : Z
}.

(** What the outside world does during one run of [main]. *)
Record environment : Type := {
  columns : option Z;                      (* the terminal's width *)
  randbelow : nat -> nat -> nat;           (* the draws of [secrets] *)
  upload_bind_error : option exn;          (* listen_once of the upload phase *)
  uploads : list (accept_outcome connection);
  upload_seconds : string;                 (* f"{dt:.1f}" of the clock *)
  download_bind_error : option exn;        (* listen_once of the download phase *)
  download : option (accept_outcome download_connection);
  remove_fails : bool;                     (* os.remove raises although the file is there *)
  rmdir_fails : bool                       (* os.rmdir raises although it could succeed *)
}.

(** [tempfile.mkdtemp(prefix="bashdrop_stage_")]: a fresh, empty directory. *)
Definition mkdtemp : M unit :=
  modify (fun s => set_staged None (set_tmp_dir true s)) ;;
  emit Mkdtemp.

(** [os.remove(staged_path)]: raises when the file is absent. *)
Definition os_remove (fails : bool) : M unit :=
  emit Remove ;;
  present <- get staged ;;
  match present with
  | Some _ => if fails then raise OSError else modify (set_staged None)
  | None => raise OSError
  end.

(** [os.rmdir(tmp_dir)]: raises when the directory is absent or not empty. *)
Definition os_rmdir (fails : bool) : M unit :=
  emit Rmdir ;;
  dir <- get tmp_dir ;;
  present <- get staged ;;
  match dir, present with
  | true, None => if fails then raise OSError else modify (set_tmp_dir false)
  | _, _ => raise OSError
  end.

(** [sys.exit(code)] *)
Definition sys_exit {A} (code : Z) : M A := raise (SystemExit code).

(** The two deletions, each in its own [try: ... except Exception: pass]
    (lines 285-292 and 305-312). *)
Definition cleanup (env : environment) : M unit :=
  try_pass (os_remove (remove_fails env)) ;;
  try_pass (os_rmdir (rmdir_fails env)).

(** [args.password if args.password else gen_password(10)] (line 263):
    an absent and an empty password are both falsy. *)
Definition choose_password (args : arguments) (env : environment) : string :=
  match args_password args with
  | Some (String c p) => String c p
  | Some EmptyString | None => gen_password (randbelow env) 10
  end.

(** [main] (lines 251-314) *)
Definition main (args : arguments) (env : environment) : M unit :=
  let pub := args_pub args in
  let bname := args_filename args in
  let password := choose_password args env in
  let port := args_port args in
  let cols := columns env in

  mkdtemp ;;

  print "" ;;
  banner cols pub port bname password ;;

  print_sender_commands cols pub port bname password ;;
  print_receiver_commands cols pub port bname password ;;

  box_title cols "Waiting for upload…" BRIGHT_WHITE ;;
  print (DIM ++ "Listening on 0.0.0.0:" ++ str_int port
           ++ ". The first client that sends data within ~" ++ format_0f PROBE_WAIT
           ++ "s will be treated as the sender." ++ RESET) ;;
  box_footer cols BRIGHT_WHITE ;;
  try_except
    (size <- accept_upload port (upload_bind_error env) (uploads env) ;;
     print (BRIGHT_GREEN ++ "Upload complete:" ++ RESET ++ " " ++ str_int size
              ++ " bytes stored temporarily (" ++ upload_seconds env ++ "s)."))
    is_KeyboardInterrupt
    (print (BRIGHT_RED ++ "Interrupted during upload. Exiting." ++ RESET) ;;
     cleanup env ;;
     sys_exit 130) ;;

  print "" ;;
  box_title cols "Ready for download — start the receiver now" BRIGHT_WHITE ;;
  print (DIM ++ "Listening again on 0.0.0.0:" ++ str_int port
           ++ ". The first client to read will receive the staged file once." ++ RESET) ;;
  box_footer cols BRIGHT_WHITE ;;
  try_except
    (serve_download port (download_bind_error env) (download env) ;;
     print (BRIGHT_GREEN ++ "Download complete." ++ RESET ++ " Cleaning up."))
    is_KeyboardInterrupt
    (print (BRIGHT_RED ++ "Interrupted during download. Cleaning up." ++ RESET)) ;;

  cleanup env ;;

  print (BRIGHT_WHITE ++ "Done." ++ RESET ++ " File served once and removed." ++ NL).

Local Close Scope string_scope.

(** ** Vocabulary of the statements *)

(** The bytes the connection accepted last has delivered: [Accept] starts
    afresh, every [Recv] adds its chunk. *)
Fixpoint upload_received (acc : bytes) (evs : list event) : bytes :=
  match evs with
  | [] => acc
  | Accept :: evs' => upload_received [] evs'
  | Recv _ data :: evs' => upload_received (acc ++ data) evs'
  | _ :: evs' => upload_received acc evs'
  end.

(** The bytes that left through [sendall]. *)
Fixpoint sent (evs : list event) : bytes :=
  match evs with
  | [] => []
  | Send data :: evs' => data ++ sent evs'
  | _ :: evs' => sent evs'
  end.

(** The number of connections accepted. *)
Fixpoint accepted (evs : list event) : nat :=
  match evs with
  | [] => O
  | Accept :: evs' => S (accepted evs')
  | _ :: evs' => accepted evs'
  end.

(** A connection whose first [recv] brings no data: the peer stays silent
    until the timeout, or closes at once. *)
Definition is_probe (conn : connection) : bool :=
  match conn with
  | [] => true
  | RecvRaises socket_timeout :: _ => true
  | Chunk [] :: _ => true
  | _ => false
  end.

(** What the server does with a probe. *)
Definition probe_trace : list event :=
  [Accept; SetTimeout (Some PROBE_WAIT); Recv (Some PROBE_WAIT) [];
   SetTimeout None; CloseConn].

(** The script delivers chunks and then the end of the stream, with no
    exception before it. *)
Fixpoint reaches_eof (conn : connection) : bool :=
  match conn with
  | Chunk [] :: _ => true
  | Chunk (_ :: _) :: rest => reaches_eof rest
  | _ => false
  end.

(** The bytes a connection delivers: its chunks up to the end of the
    stream, to the first exception, or to the point where it falls silent. *)
Fixpoint delivered (conn : connection) : bytes :=
  match conn with
  | Chunk (x :: d) :: rest => (x :: d) ++ delivered rest
  | _ => []
  end.

(** A sender whose whole stream arrives. *)
Definition completes (conn : connection) : bool :=
  match conn with
  | Chunk (_ :: _) :: rest => reaches_eof rest
  | _ => false
  end.




(** The events of a connection once its first chunk has come: no further
    [settimeout], and every [recv] without a timeout. *)
Definition untimed (e : event) : Prop :=
  match e with
  | Recv t _ => t = None
  | SetTimeout _ => False
  | _ => True
  end.

(** No listening socket is created while another one is open; [open] tells
    whether one is open before [evs]. *)
Fixpoint listeners_sequential (open : bool) (evs : list event) : bool :=
  match evs with
  | [] => true
  | Listen _ :: evs' => negb open && listeners_sequential true evs'
  | CloseListener _ :: evs' => open && listeners_sequential false evs'
  | _ :: evs' => listeners_sequential open evs'
  end.

(** The port of every listening socket of [evs] is [port]. *)
Definition on_port (port : Z) (e : event) : Prop :=
  match e with
  | Listen p | CloseListener p => p = port
  | _ => True
  end.

Definition is_Print (e : event) : bool :=
  match e with
  | Print _ => true
  | _ => false
  end.

Definition is_deletion (e : event) : bool :=
  match e with
  | Remove | Rmdir => true
  | _ => false
  end.

Definition is_staging (e : event) : bool :=
  match e with
  | OpenWrite | Write _ => true
  | _ => false
  end.

(** A run without what it prints. *)
Definition silent (evs : list event) : list event :=
  filter (fun e => negb (is_Print e)) evs.

Definition observe {A} (r : run A) : run A :=
  Run (result r) (final r) (silent (events r)).

(** [[A-Za-z0-9]] *)
Definition is_alnum (c : ascii) : bool :=
  let n := nat_of_ascii c in
  ((97 <=? n) && (n <=? 122) || (65 <=? n) && (n <=? 90) || (48 <=? n) && (n <=? 57))%nat.

Definition with_password (pw : option string) (args : arguments) : arguments :=
  {| args_pub := args_pub args; args_filename := args_filename args;
     args_password := pw; args_port := args_port args |}.

Definition with_randbelow (rb : nat -> nat -> nat) (env : environment) : environment :=
  {| columns := columns env; randbelow := rb;
     upload_bind_error := upload_bind_error env; uploads := uploads env;
     upload_seconds := upload_seconds env;
     download_bind_error := download_bind_error env; download := download env;
     remove_fails := remove_fails env; rmdir_fails := rmdir_fails env |}.

(** ** Vocabulary of the proofs *)

(** What a connection can make the server do. *)
Definition conn_event (e : event) : Prop :=
  match e with
  | SetTimeout _ | Recv _ _ | CloseConn | OpenWrite | Write _ | CloseFile => True
  | _ => False
  end.

(** What the copy loop does: [recv] under the timeout [t], and [write]. *)
Definition copy_event (t : option Q) (e : event) : Prop :=
  match e with
  | Recv t' _ => t' = t
  | Write _ => True
  | _ => False
  end.

(** The events of a sender up to its first write. *)
Definition sender_prefix (first_chunk : bytes) : list event :=
  [SetTimeout (Some PROBE_WAIT); Recv (Some PROBE_WAIT) first_chunk;
   SetTimeout None; OpenWrite; Write first_chunk].

(** The with-block of lines 206-214 for a first chunk and the rest of the
    connection. *)
Definition staging (first_chunk : bytes) (rest : connection) : M unit :=
  open_wb ;;
  try_finally
    (f_write first_chunk ;;
     size_add (len first_chunk) ;;
     copy_loop rest)
    (emit CloseFile).

(** What the with-block can do: file calls, and [recv] without a timeout. *)
Definition stage_event (e : event) : Prop :=
  match e with
  | OpenWrite | Write _ | CloseFile => True
  | Recv t _ => t = None
  | _ => False
  end.

(** The events of a sender before the with-block. *)
Definition sender_start (first_chunk : bytes) : list event :=
  [SetTimeout (Some PROBE_WAIT); Recv (Some PROBE_WAIT) first_chunk; SetTimeout None].

(** What the accept loop can do. *)
Definition upload_event (e : event) : Prop :=
  match e with
  | Accept => True
  | _ => conn_event e
  end.

(** What the send loop can do. *)
Definition send_event (e : event) : Prop :=
  match e with
  | Read _ | Send _ => True
  | _ => False
  end.

(** Two computations that differ in what they print only. *)
Definition equiv {A} (m1 m2 : M A) : Prop :=
  forall s, observe (m1 s) = observe (m2 s).

(** A computation that prints and does nothing else. *)
Definition prints_only (m : M unit) : Prop :=
  forall s, observe (m s) = Run (Returns tt) s [].

(** [main] with every [print] taken out. *)
Definition main_silent (args : arguments) (env : environment) : M unit :=
  let port := args_port args in
  mkdtemp ;;
  try_except
    (accept_upload port (upload_bind_error env) (uploads env) ;; ret tt)
    is_KeyboardInterrupt
    (cleanup env ;; sys_exit 130) ;;
  try_except
    (serve_download port (download_bind_error env) (download env))
    is_KeyboardInterrupt
    (ret tt) ;;
  cleanup env.

(** What the two phases do: socket and file calls, no print, no deletion. *)
Definition phase_event (e : event) : Prop :=
  match e with
  | Mkdtemp | Remove | Rmdir | Print _ => False
  | _ => True
  end.

(** Neither creates nor closes a listening socket. *)
Definition quiet (e : event) : Prop :=
  match e with
  | Listen _ | CloseListener _ => False
  | _ => True
  end.

(** The state [main] hands to the upload phase. *)
Definition staging_state (s : state) : state :=
  set_staged None (set_tmp_dir true s).

(** The run of the upload phase inside [main]. *)
Definition upload_run (args : arguments) (env : environment) (s : state) : run Z :=
  accept_upload (args_port args) (upload_bind_error env) (uploads env) (staging_state s).

(** The run of the download phase inside [main], when the upload returned. *)
Definition download_run (args : arguments) (env : environment) (s : state) : run unit :=
  serve_download (args_port args) (download_bind_error env) (download env)
    (final (upload_run args env s)).

(** The three ways of ending that the spec lists. *)
Inductive path : Type :=
| UploadInterrupted      (* KeyboardInterrupt during the upload phase *)
| DownloadCompleted      (* the download phase returned *)
| DownloadInterrupted.   (* KeyboardInterrupt during the download phase *)

Definition listed_path (args : arguments) (env : environment) (s : state) : option path :=
  match result (upload_run args env s) with
  | Raises KeyboardInterrupt => Some UploadInterrupted
  | Returns _ =>
      match result (download_run args env s) with
      | Returns _ => Some DownloadCompleted
      | Raises KeyboardInterrupt => Some DownloadInterrupted
      | _ => None
      end
  | _ => None
  end.

(** ** Example runs *)

(** [b"..."] for an ASCII literal *)
Definition b (s : string) : bytes := list_byte_of_string s.

(** A silent probe, a sender whose connection breaks after two bytes, a
    sender whose five bytes arrive, and a client that would come later. *)
Definition example_uploads : list (accept_outcome connection) :=
  [Accepted [];
   Accepted [Chunk (b "he"); RecvRaises OSError];
   Accepted [Chunk (b "wor"); Chunk (b "ld"); Chunk []];
   Accepted [Chunk (b "late"); Chunk []]].

(** A download client that takes everything. *)
Definition example_client : download_connection :=
  {| sends := []; shutdown_raises := false |}.

(** An example run: the uploads of [example_uploads], then a download
    client whose connection is what [client] says. *)
Definition example_args : arguments :=
  {| args_pub := "203.0.113.7"; args_filename := "file";
     args_password := None; args_port := DEFAULT_PORT |}.

Definition example_env (client : option (accept_outcome download_connection))
    : environment :=
  {| columns := Some 80;
     randbelow := fun i n => ((7 * i + 3) mod n)%nat;
     upload_bind_error := None;
     uploads := example_uploads;
     upload_seconds := "1.5";
     download_bind_error := None;
     download := client;
     remove_fails := false;
     rmdir_fails := false |}.

(** A download client that resets the connection after one byte. *)
Definition resetting_client : download_connection :=
  {| sends := [SendRaises OSError 1]; shutdown_raises := false |}.

(** An upload that is interrupted while the second sender is copied. *)
Definition interrupted_env : environment :=
  {| columns := None;
     randbelow := fun i n => ((7 * i + 3) mod n)%nat;
     upload_bind_error := None;
     uploads := [Accepted []; Accepted [Chunk (b "he"); RecvRaises KeyboardInterrupt]];
     upload_seconds := "0.0";
     download_bind_error := None;
     download := None;
     remove_fails := true;
     rmdir_fails := false |}.

(** ** Vocabulary of the further properties *)

(** The number of bytes handed to [f.write], over all connections. *)
Fixpoint written (evs : list event) : Z :=
  match evs with
  | [] => 0
  | Write data :: evs' => len data + written evs'
  | _ :: evs' => written evs'
  end.

(** Connections are held one at a time: no [accept] while a connection is
    open, no [close] without one.  [open] tells whether a connection is open
    before [evs]; the result is [None] when the discipline is broken and
    otherwise tells whether a connection is open after [evs]. *)
Fixpoint connections_sequential (open : bool) (evs : list event) : option bool :=
  match evs with
  | [] => Some open
  | Accept :: evs' => if open then None else connections_sequential true evs'
  | CloseConn :: evs' => if open then connections_sequential false evs' else None
  | _ :: evs' => connections_sequential open evs'
  end.

(** The staged file is opened and closed in turn: no [open] while it is
    open, reads and writes only while it is open, [os.remove] only while
    it is closed.  Same reading of [open] and of the result as above. *)
Fixpoint file_sequential (open : bool) (evs : list event) : option bool :=
  match evs with
  | [] => Some open
  | OpenWrite :: evs' | OpenRead :: evs' =>
      if open then None else file_sequential true evs'
  | CloseFile :: evs' => if open then file_sequential false evs' else None
  | Write _ :: evs' | Read _ :: evs' => if open then file_sequential open evs' else None
  | Remove :: evs' => if open then None else file_sequential open evs'
  | _ :: evs' => file_sequential open evs'
  end.

(** Events that neither open nor close a connection. *)
Definition conn_neutral (e : event) : Prop :=
  match e with
  | Accept | CloseConn => False
  | _ => True
  end.

(** Events that do not touch the staged file. *)
Definition file_neutral (e : event) : Prop :=
  match e with
  | OpenWrite | OpenRead | CloseFile | Write _ | Read _ | Remove => False
  | _ => True
  end.

(** Events that use the staged file while it is open. *)
Definition file_use (e : event) : Prop :=
  match e with
  | OpenWrite | OpenRead | CloseFile | Remove => False
  | _ => True
  end.

(** What each call of [sendall] put on the connection, one entry per call,
    in order: the chunk it was given when the call returned, the part of
    the chunk that went out when the call raised. *)
Fixpoint send_calls (evs : list event) : list bytes :=
  match evs with
  | [] => []
  | Send data :: evs' => data :: send_calls evs'
  | _ :: evs' => send_calls evs'
  end.

(** What each [f.read(CHUNK_SIZE)] of the download returned, in order. *)
Fixpoint read_calls (evs : list event) : list bytes :=
  match evs with
  | [] => []
  | Read data :: evs' => data :: read_calls evs'
  | _ :: evs' => read_calls evs'
  end.

(** [a] is a prefix of [l]. *)
Definition is_prefix (a l : bytes) : Prop := exists rest, l = a ++ rest.

(** The content of the staged file, [b""] when it is absent. *)
Definition staged_content (s : state) : bytes :=
  match staged s with
  | Some content => content
  | None => []
  end.

(** The line of a box or of a rule: [body] between a color and [RESET]. *)
Definition colored (color body : string) : string :=
  (color ++ body ++ RESET)%string.

(** * Proofs *)

(** ** The upload phase: one connection *)

Lemma copy_event_conn_event t e : copy_event t e -> conn_event e.
Proof. destruct e; simpl; auto. Qed.

Lemma copy_event_stage_event e : copy_event None e -> stage_event e.
Proof. destruct e; simpl; auto. Qed.

Lemma stage_event_conn_event e : stage_event e -> conn_event e.
Proof. destruct e; simpl; auto. Qed.

Lemma stage_event_untimed e : stage_event e -> untimed e.
Proof. destruct e; simpl; auto. Qed.

Lemma upload_received_app acc e1 e2 :
  upload_received acc (e1 ++ e2) = upload_received (upload_received acc e1) e2.
Proof.
  revert acc; induction e1 as [|e e1 IH]; intros acc; simpl; auto.
  destruct e; auto.
Qed.

Lemma upload_received_acc acc evs :
  Forall conn_event evs ->
  upload_received acc evs = acc ++ upload_received [] evs.
Proof.
  intros H; revert acc; induction H as [|e evs He _ IH]; intros acc; simpl.
  - now rewrite app_nil_r.
  - destruct e; simpl in He; try contradiction; auto.
    rewrite IH, (IH data), app_assoc; reflexivity.
Qed.

(** Symbolic execution: unfold the monad and the primitive calls, keep the
    loops folded. *)
Ltac run_monad :=
  cbv beta iota zeta delta
    [bind try_except try_finally try_pass ret raise hang emit get modify
     settimeout file_call after_call open_wb f_write size_add recv close_listener
     listen_once
     sendall open_rb shutdown accept_download mkdtemp os_remove os_rmdir
     sys_exit print is_empty is_Exception is_socket_timeout
     is_KeyboardInterrupt];
  cbn [app result final events staged tmp_dir size conn_timeout file_faults
       set_staged set_tmp_dir set_size set_conn_timeout set_file_faults tl hd].

(** The answer of the file system to the next call, case by case. *)
Ltac file_answer s :=
  let Hf := fresh "Hf" in
  destruct (next_fault s) eqn:Hf;
  cbn [app result final events staged tmp_dir size conn_timeout file_faults
       set_staged set_tmp_dir set_size set_conn_timeout set_file_faults after_call].

Lemma no_fault s : file_faults s = [] -> next_fault s = false.
Proof. unfold next_fault. now intros ->. Qed.

Lemma no_fault_after s : file_faults s = [] -> file_faults (after_call s) = [].
Proof. cbn. now intros ->. Qed.

(** What the copy loop keeps, whatever the connection and the file system
    do; and what it has done when it returns. *)
Lemma copy_loop_spec conn : forall s old,
  staged s = Some old ->
  let r := copy_loop conn s in
  Forall (copy_event (conn_timeout s)) (events r)
  /\ tmp_dir (final r) = tmp_dir s
  /\ conn_timeout (final r) = conn_timeout s
  /\ (result r = Returns tt ->
      reaches_eof conn = true
      /\ staged (final r) = Some (old ++ delivered conn)
      /\ upload_received [] (events r) = delivered conn).
Proof.
  induction conn as [|o rest IH]; intros s old Hs; cbn [copy_loop].
  - run_monad.
    destruct (conn_timeout s) eqn:Ht; cbn; repeat split; auto;
      try discriminate; repeat constructor; simpl; auto.
  - destruct o as [[|x data]|e]; run_monad.
    + cbn. rewrite app_nil_r. repeat split; auto. repeat constructor; simpl; auto.
    + file_answer s; rewrite ?Hs.
      * cbn. repeat split; auto; try discriminate. repeat constructor; simpl; auto.
      * match goal with |- context [copy_loop rest ?s1] =>
          specialize (IH s1 (old ++ x :: data) eq_refl);
          destruct (copy_loop rest s1) as [o f ev]
        end.
        cbn in *. destruct IH as (H1 & H2 & H3 & H4).
        split; [repeat constructor; simpl; auto | split; [auto | split; [auto|]]].
        intros Hr. destruct (H4 Hr) as (E1 & E2 & E3).
        split; [exact E1 | split].
        -- rewrite E2, <- app_assoc. reflexivity.
        -- rewrite (upload_received_acc (x :: data)), E3; [reflexivity|].
           eapply Forall_impl; [apply copy_event_conn_event | exact H1].
    + cbn. repeat split; auto; try discriminate. repeat constructor; simpl; auto.
Qed.

(** Without faults of the file system the copy loop stages all that the
    connection delivers, however the connection ends. *)
Lemma copy_loop_clean conn : forall s old,
  staged s = Some old ->
  file_faults s = [] ->
  let r := copy_loop conn s in
  file_faults (final r) = []
  /\ staged (final r) = Some (old ++ delivered conn)
  /\ upload_received [] (events r) = delivered conn
  /\ (reaches_eof conn = true -> result r = Returns tt).
Proof.
  induction conn as [|o rest IH]; intros s old Hs Hf; cbn [copy_loop].
  - run_monad.
    destruct (conn_timeout s) eqn:Ht; cbn; rewrite app_nil_r;
      repeat split; auto; discriminate.
  - destruct o as [[|x data]|e]; run_monad.
    + cbn. rewrite app_nil_r. repeat split; auto.
    + rewrite (no_fault s Hf).
      cbn [app result final events staged after_call set_file_faults]. rewrite Hs.
      match goal with |- context [copy_loop rest ?s1] =>
        specialize (IH s1 (old ++ x :: data) eq_refl (no_fault_after s Hf));
        pose proof (copy_loop_spec rest s1 (old := old ++ x :: data) eq_refl) as Hc;
        destruct (copy_loop rest s1) as [o f ev]
      end.
      cbn in *. destruct IH as (H1 & H2 & H3 & H4). destruct Hc as (Hc & _).
      split; [exact H1 | split; [|split; [|exact H4]]].
      * rewrite H2, <- app_assoc. reflexivity.
      * rewrite (upload_received_acc (x :: data)), H3; [reflexivity|].
        eapply Forall_impl; [apply copy_event_conn_event | exact Hc].
    + cbn. rewrite app_nil_r. repeat split; auto. discriminate.
Qed.


(** ** The upload phase: the with-block *)

(** The with-block, by the answers of the file system and the outcome of
    the copy loop. *)
Lemma staging_run first_chunk rest s :
  staging first_chunk rest s =
  if next_fault s then Run (Raises OSError) (after_call s) []
  else if tmp_dir s then
    let s1 := set_staged (Some []) (after_call s) in
    if next_fault s1 then Run (Raises OSError) (after_call s1) [OpenWrite; CloseFile]
    else
      let c := copy_loop rest
                 (set_size (size s + len first_chunk)
                    (set_staged (Some first_chunk) (after_call s1))) in
      match result c with
      | Hangs => Run Hangs (final c) (OpenWrite :: Write first_chunk :: events c)
      | o => Run o (final c) (OpenWrite :: Write first_chunk :: events c ++ [CloseFile])
      end
  else Run (Raises OSError) (after_call s) [].
Proof.
  unfold staging. run_monad.
  destruct (next_fault s); [reflexivity|].
  destruct (tmp_dir s); [|reflexivity].
  destruct (next_fault _); [reflexivity|].
  match goal with |- context [copy_loop rest ?s2] => set (c := copy_loop rest s2) end.
  change (copy_loop rest _) with c.
  destruct c as [[[]|e|] f ev]; reflexivity.
Qed.

(** What the with-block keeps, whatever happens; and what it has done when
    it returns. *)
Lemma staging_spec first_chunk rest s :
  conn_timeout s = None ->
  let w := staging first_chunk rest s in
  Forall stage_event (events w)
  /\ tmp_dir (final w) = tmp_dir s
  /\ (result w = Returns tt ->
      reaches_eof rest = true
      /\ staged (final w) = Some (first_chunk ++ delivered rest)
      /\ upload_received [] (events w) = delivered rest).
Proof.
  intros Ht. cbn zeta. rewrite staging_run.
  destruct (next_fault s); [cbn; repeat split; auto; discriminate|].
  destruct (tmp_dir s) eqn:Hd; [|cbn; repeat split; auto; discriminate].
  cbn zeta.
  destruct (next_fault _);
    [cbn; repeat split; auto; try discriminate; repeat constructor|].
  match goal with |- context [copy_loop rest ?s2] =>
    destruct (copy_loop_spec rest s2 (old := first_chunk) eq_refl) as (H1 & H2 & H3 & H4);
    set (c := copy_loop rest s2) in *
  end.
  cbn [conn_timeout tmp_dir set_size set_staged after_call set_file_faults] in H1, H2.
  rewrite Ht in H1.
  assert (Hs : Forall stage_event (events c))
    by (eapply Forall_impl; [apply copy_event_stage_event | exact H1]).
  assert (Hc : Forall conn_event (events c))
    by (eapply Forall_impl; [apply copy_event_conn_event | exact H1]).
  rewrite Hd in H2.
  destruct (result c) as [[]|e|]; cbn [result final events];
    (split; [repeat (constructor; [exact I|]);
             try (apply Forall_app; split); auto; repeat constructor
            | split; [exact H2|]]); try discriminate.
  intros _. destruct (H4 eq_refl) as (E1 & E2 & E3).
  split; [exact E1 | split; [exact E2|]].
  cbn [upload_received]. rewrite upload_received_app, E3. reflexivity.
Qed.

(** Without faults of the file system and with the directory in place the
    with-block stages the first chunk and all that the connection delivers
    after it, however the connection ends. *)
Lemma staging_clean first_chunk rest s :
  tmp_dir s = true ->
  file_faults s = [] ->
  let w := staging first_chunk rest s in
  file_faults (final w) = []
  /\ staged (final w) = Some (first_chunk ++ delivered rest)
  /\ upload_received [] (events w) = delivered rest
  /\ (exists copied, events w = OpenWrite :: Write first_chunk :: copied)
  /\ (reaches_eof rest = true -> result w = Returns tt).
Proof.
  intros Hd Hf. cbn zeta. rewrite staging_run.
  rewrite (no_fault s Hf), Hd. cbn zeta.
  rewrite (no_fault (set_staged (Some []) (after_call s)) (no_fault_after s Hf)).
  match goal with |- context [copy_loop rest ?s2] =>
    assert (Hf2 : file_faults s2 = []) by (cbn; rewrite Hf; reflexivity);
    destruct (copy_loop_clean rest s2 (old := first_chunk) eq_refl Hf2)
      as (H1 & H2 & H3 & H4);
    set (c := copy_loop rest s2) in *
  end.
  destruct (result c) as [[]|e|]; cbn [result final events upload_received];
    rewrite ?upload_received_app, H3;
    (split; [exact H1 | split; [exact H2 | split; [reflexivity | split]]]);
    try (eexists; reflexivity); auto.
Qed.

(** ** The upload phase: one attempt *)

(** [upload_attempt] on a connection whose first chunk holds data, by the
    outcome of the with-block. *)
Lemma upload_attempt_sender x d tl s :
  let w := staging (x :: d) tl (set_conn_timeout None s) in
  upload_attempt (Chunk (x :: d) :: tl) s =
  match result w with
  | Returns _ =>
      Run (Returns Break) (final w) (sender_start (x :: d) ++ events w ++ [CloseConn])
  | Raises e =>
      if is_Exception e then
        Run (Returns Continue) (final w) (sender_start (x :: d) ++ events w ++ [CloseConn])
      else
        Run (Raises e) (final w) (sender_start (x :: d) ++ events w)
  | Hangs => Run Hangs (final w) (sender_start (x :: d) ++ events w)
  end.
Proof.
  cbn zeta. unfold upload_attempt, staging, sender_start. run_monad.
  destruct (next_fault _); [reflexivity|].
  destruct (tmp_dir s); [|reflexivity].
  destruct (next_fault _); [reflexivity|].
  match goal with |- context [copy_loop tl ?s2] => set (c := copy_loop tl s2) end.
  change (copy_loop tl _) with c.
  destruct c as [[[]|e|] f ev]; cbn; try destruct e; cbn;
    rewrite <- ?app_assoc; reflexivity.
Qed.

(** [upload_attempt] on a probe. *)
Lemma upload_attempt_probe conn s :
  is_probe conn = true ->
  upload_attempt conn s =
  Run (Returns Continue) (set_conn_timeout None s) (tl probe_trace).
Proof.
  intros H. unfold upload_attempt.
  destruct conn as [|[[|x d]|[]] rest]; try discriminate; reflexivity.
Qed.

(** [upload_attempt] when the first [recv] raises. *)
Lemma upload_attempt_first_raises e rest s :
  upload_attempt (RecvRaises e :: rest) s =
  match e with
  | socket_timeout =>
      Run (Returns Continue) (set_conn_timeout None s) (tl probe_trace)
  | OSError =>
      Run (Returns Continue) (set_conn_timeout (Some PROBE_WAIT) s)
        [SetTimeout (Some PROBE_WAIT); Recv (Some PROBE_WAIT) []; CloseConn]
  | _ =>
      Run (Raises e) (set_conn_timeout (Some PROBE_WAIT) s)
        [SetTimeout (Some PROBE_WAIT); Recv (Some PROBE_WAIT) []]
  end.
Proof. destruct e; reflexivity. Qed.

(** What an upload attempt leaves behind, whatever the connection and the
    file system do. *)
Lemma upload_attempt_spec conn s :
  let r := upload_attempt conn s in
  Forall conn_event (events r)
  /\ tmp_dir (final r) = tmp_dir s
  /\ (result r = Returns Break ->
      completes conn = true
      /\ staged (final r) = Some (delivered conn)
      /\ upload_received [] (events r) = delivered conn).
Proof.
  destruct conn as [|[[|x d]|e] rest].
  - rewrite upload_attempt_probe by reflexivity. cbn.
    repeat split; try discriminate. repeat constructor.
  - rewrite upload_attempt_probe by reflexivity. cbn.
    repeat split; try discriminate. repeat constructor.
  - rewrite upload_attempt_sender.
    destruct (staging_spec (x :: d) rest (set_conn_timeout None s) eq_refl)
      as (H1 & H2 & H3).
    cbn [tmp_dir set_conn_timeout] in H2.
    set (w := staging (x :: d) rest (set_conn_timeout None s)) in *.
    assert (Hc : Forall conn_event (events w))
      by (eapply Forall_impl; [apply stage_event_conn_event | exact H1]).
    assert (Hall : forall tail, Forall conn_event tail ->
              Forall conn_event (sender_start (x :: d) ++ events w ++ tail)).
    { intros tail Ht. apply Forall_app. split; [repeat constructor|].
      apply Forall_app. split; assumption. }
    destruct (result w) as [[]|e|]; [ | destruct (is_Exception e) | ];
      cbn [result final events];
      (split; [ first [ apply Hall; repeat constructor
                      | rewrite <- (app_nil_r (events w)); apply Hall; constructor ]
              | split; [exact H2|] ]); try discriminate.
    intros _. destruct (H3 eq_refl) as (E1 & E2 & E3).
    split; [exact E1 | split; [exact E2|]].
    cbn [sender_start app upload_received].
    rewrite upload_received_app, (upload_received_acc (x :: d) Hc), E3. reflexivity.
  - rewrite upload_attempt_first_raises.
    destruct e; cbn; repeat split; try discriminate; repeat constructor.
Qed.

(** Without faults of the file system and with the directory in place, what
    is staged for a sender is what its connection delivers, however the
    attempt ends; and the attempt ends the loop when the stream is whole. *)
Lemma upload_attempt_clean x d tl s :
  tmp_dir s = true ->
  file_faults s = [] ->
  let r := upload_attempt (Chunk (x :: d) :: tl) s in
  file_faults (final r) = []
  /\ staged (final r) = Some (delivered (Chunk (x :: d) :: tl))
  /\ upload_received [] (events r) = delivered (Chunk (x :: d) :: tl)
  /\ (exists copied, events r = sender_prefix (x :: d) ++ copied)
  /\ (reaches_eof tl = true -> result r = Returns Break).
Proof.
  intros Hd Hf. cbn zeta. rewrite upload_attempt_sender.
  destruct (staging_clean (x :: d) tl (set_conn_timeout None s) Hd Hf)
    as (H1 & H2 & H3 & (copied & H4) & H5).
  destruct (staging_spec (x :: d) tl (set_conn_timeout None s) eq_refl) as (Hs & _).
  set (w := staging (x :: d) tl (set_conn_timeout None s)) in *.
  assert (Hc : Forall conn_event (events w))
    by (eapply Forall_impl; [apply stage_event_conn_event | exact Hs]).
  assert (Hrecv : forall tail, upload_received [] tail = [] -> Forall conn_event tail ->
            upload_received [] (sender_start (x :: d) ++ events w ++ tail)
            = delivered (Chunk (x :: d) :: tl)).
  { intros tail Ht Hct. cbn [sender_start app upload_received delivered].
    rewrite upload_received_app, (upload_received_acc (x :: d) Hc), H3.
    rewrite upload_received_acc, Ht, app_nil_r by exact Hct. reflexivity. }
  assert (Hpre : forall tail, exists copied',
            sender_start (x :: d) ++ events w ++ tail = sender_prefix (x :: d) ++ copied').
  { intros tail. rewrite H4. eexists. reflexivity. }
  cbn [delivered] in *.
  destruct (result w) as [[]|e|] eqn:Hw; [ | destruct (is_Exception e) | ];
    cbn [result final events];
    (split; [exact H1 | split; [exact H2 | split; [|split]]]);
    try (apply Hrecv; [reflexivity | repeat constructor]);
    try (rewrite <- (app_nil_r (events w)); apply Hrecv; [reflexivity | constructor]);
    try apply Hpre;
    try (rewrite <- (app_nil_r (events w)); apply Hpre);
    try reflexivity;
    intros He; specialize (H5 He); congruence.
Qed.








(** ** The upload phase: the accept loop *)

Lemma conn_event_upload_event e : conn_event e -> upload_event e.
Proof. destruct e; simpl; auto. Qed.

(** One round of the accept loop on an accepted connection. *)
Lemma accept_loop_accepted conn rest s :
  let a := upload_attempt conn (set_conn_timeout None s) in
  accept_loop (Accepted conn :: rest) s =
  match result a with
  | Returns Break => Run (Returns tt) (final a) (Accept :: events a)
  | Returns Continue =>
      let r := accept_loop rest (final a) in
      Run (result r) (final r) (Accept :: events a ++ events r)
  | Raises e => Run (Raises e) (final a) (Accept :: events a)
  | Hangs => Run Hangs (final a) (Accept :: events a)
  end.
Proof.
  intros a. cbn [accept_loop]. run_monad.
  change (upload_attempt conn _) with a.
  destruct a as [[[]|e|] f ev]; cbn; rewrite ?app_nil_r; try reflexivity.
  destruct (accept_loop rest f); reflexivity.
Qed.

Lemma accept_loop_spec ups : forall s,
  let r := accept_loop ups s in
  Forall upload_event (events r)
  /\ tmp_dir (final r) = tmp_dir s
  /\ (result r = Returns tt ->
      forall acc, staged (final r) = Some (upload_received acc (events r))).
Proof.
  induction ups as [|[conn|e] rest IH]; intros s.
  - cbn. repeat split; auto; discriminate.
  - rewrite accept_loop_accepted.
    destruct (upload_attempt_spec conn (set_conn_timeout None s)) as (H1 & H2 & H3).
    assert (H1' : Forall upload_event (events (upload_attempt conn (set_conn_timeout None s))))
      by (eapply Forall_impl; [apply conn_event_upload_event | exact H1]).
    cbn [tmp_dir set_conn_timeout] in H2.
    destruct (result (upload_attempt conn (set_conn_timeout None s))) as [[]|e|].
    + cbn. split; [|split].
      * constructor; simpl; auto.
      * exact H2.
      * intros _ acc. destruct (H3 eq_refl) as (_ & E2 & E3). now rewrite E2, E3.
    + specialize (IH (final (upload_attempt conn (set_conn_timeout None s)))).
      destruct IH as (I1 & I2 & I3). cbn.
      split; [|split].
      * constructor; simpl; auto. apply Forall_app; auto.
      * congruence.
      * intros Hr acc. rewrite upload_received_app. apply I3; exact Hr.
    + cbn. repeat split; auto; try discriminate. constructor; simpl; auto.
    + cbn. repeat split; auto; try discriminate. constructor; simpl; auto.
  - cbn. repeat split; auto; discriminate.
Qed.


(** [accept_upload] by the outcome of its loop. *)
Lemma accept_upload_run port bind_error ups s :
  accept_upload port bind_error ups s =
  match bind_error with
  | Some e => Run (Raises e) s []
  | None =>
      let l := accept_loop ups (set_size 0 s) in
      match result l with
      | Returns _ =>
          Run (Returns (size (final l))) (final l)
            (Listen port :: events l ++ [CloseListener port])
      | Raises e =>
          Run (Raises e) (final l) (Listen port :: events l ++ [CloseListener port])
      | Hangs => Run Hangs (final l) (Listen port :: events l)
      end
  end.
Proof.
  unfold accept_upload. destruct bind_error as [e|]; run_monad; [reflexivity|].
  destruct (accept_loop ups (set_size 0 s)) as [[[]|e|] f ev]; cbn;
    rewrite ?app_nil_r; reflexivity.
Qed.

(** ** The download phase *)

Lemma chunks_fuel_concat n : (0 < n)%nat -> forall fuel data,
  (List.length data <= fuel)%nat -> List.concat (chunks_fuel fuel n data) = data.
Proof.
  intros Hn. induction fuel as [|fuel IH]; intros data Hlen.
  - destruct data; [reflexivity | cbn in Hlen; lia].
  - destruct data as [|x data]; [reflexivity|].
    cbn [chunks_fuel List.concat].
    rewrite IH.
    + apply firstn_skipn.
    + rewrite length_skipn. cbn [List.length] in *. lia.
Qed.

(** The chunks read from a file make up its content. *)
Lemma chunks_concat n data : (0 < n)%nat -> List.concat (chunks n data) = data.
Proof. intros Hn. apply chunks_fuel_concat; auto. Qed.

Lemma send_loop_spec reads : forall script s,
  let l := send_loop reads script s in
  final l = s
  /\ Forall send_event (events l)
  /\ result l <> Hangs
  /\ (result l = Returns tt -> sent (events l) = List.concat reads).
Proof.
  induction reads as [|chunk reads IH]; intros script s; cbn [send_loop].
  - run_monad. repeat split; auto; try discriminate. repeat constructor.
  - specialize (IH (List.tl script) s).
    destruct (hd SendOk script) as [|e n]; run_monad;
      destruct (send_loop reads (List.tl script) s) as [o f ev];
      cbn in *; destruct IH as (I1 & I2 & I3 & I4).
    + repeat split; auto.
      * repeat constructor; auto.
      * intros Hr. rewrite (I4 Hr). reflexivity.
    + repeat split; auto; try discriminate. repeat constructor.
Qed.

(** [serve_download] by what the client and the send loop do. *)
Lemma serve_download_run port bind_error dn s :
  serve_download port bind_error dn s =
  match bind_error with
  | Some e => Run (Raises e) s []
  | None =>
      match dn with
      | None => Run Hangs s [Listen port]
      | Some (AcceptRaises e) => Run (Raises e) s [Listen port; CloseListener port]
      | Some (Accepted conn) =>
          match staged s with
          | None =>
              Run (Raises OSError) s [Listen port; Accept; CloseConn; CloseListener port]
          | Some content =>
              let l := send_loop (chunks (Z.to_nat CHUNK_SIZE) content) (sends conn) s in
              match result l with
              | Returns _ =>
                  Run (Returns tt) (final l)
                    (Listen port :: Accept :: OpenRead :: events l
                       ++ [CloseFile; Shutdown; CloseConn; CloseListener port])
              | Raises e =>
                  Run (Raises e) (final l)
                    (Listen port :: Accept :: OpenRead :: events l
                       ++ [CloseFile; CloseConn; CloseListener port])
              | Hangs =>
                  Run Hangs (final l) (Listen port :: Accept :: OpenRead :: events l)
              end
          end
      end
  end.
Proof.
  unfold serve_download.
  destruct bind_error as [e|]; [reflexivity|].
  destruct dn as [[conn|e]|]; [|reflexivity|reflexivity].
  run_monad.
  destruct (staged s) as [content|]; [|reflexivity].
  destruct (send_loop _ _ s) as [[[]|e|] f ev]; cbn; rewrite <- ?app_assoc.
  - destruct (shutdown_raises conn); cbn; rewrite <- ?app_assoc; reflexivity.
  - reflexivity.
  - reflexivity.
Qed.

(** ** The claims on the two phases *)

Lemma sent_app e1 e2 : sent (e1 ++ e2) = sent e1 ++ sent e2.
Proof.
  induction e1 as [|e e1 IH]; cbn; auto.
  destruct e; auto. rewrite IH, app_assoc; reflexivity.
Qed.


(** When [accept_upload] returns, the staged file holds the bytes of the
    connection accepted last, whatever the file held before. *)
Lemma accept_upload_staged port bind_error ups s n :
  let r := accept_upload port bind_error ups s in
  result r = Returns n ->
  staged (final r) = Some (upload_received [] (events r)).
Proof.
  cbn zeta. rewrite accept_upload_run.
  destruct bind_error as [e|]; [discriminate|].
  cbn zeta.
  destruct (accept_loop_spec ups (set_size 0 s)) as (H1 & _ & H3).
  destruct (result (accept_loop ups (set_size 0 s))) as [[]|e|]; try discriminate.
  intros _. cbn [final events upload_received].
  rewrite upload_received_app. cbn. apply H3; reflexivity.
Qed.




(** C10.  Whenever [accept_upload] returns normally, the staged file holds
    the bytes of one connection only, the one accepted last: opening the
    file for it has dropped what the file held before and what an earlier
    attempt had written. *)
Theorem staged_file_is_from_one_connection port bind_error ups s n :
  let r := accept_upload port bind_error ups s in
  result r = Returns n ->
  staged (final r) = Some (upload_received [] (events r)).
Proof.
  cbn zeta. rewrite accept_upload_run.
  destruct bind_error as [e|]; [discriminate|].
  cbn zeta.
  destruct (accept_loop_spec ups (set_size 0 s)) as (_ & _ & Hloop).
  destruct (result (accept_loop ups (set_size 0 s))) as [[]|e|]; try discriminate.
  intros _. cbn [final events upload_received].
  rewrite upload_received_app. cbn.
  apply Hloop; reflexivity.
Qed.

Lemma staged_file_is_from_one_connection_witness :
  let s := set_staged (Some (b "old content")) (staging_state initial_state) in
  let r := accept_upload 9000 None example_uploads s in
  result r = Returns 7
  /\ staged (final r) = Some (b "world").
Proof.
  cbv zeta.
  assert (Hr : result (accept_upload 9000 None example_uploads
                         (set_staged (Some (b "old content"))
                            (staging_state initial_state))) = Returns 7)
    by (vm_compute; reflexivity).
  split; [exact Hr|].
  pose proof (staged_file_is_from_one_connection 9000 None example_uploads
                (set_staged (Some (b "old content")) (staging_state initial_state))
                Hr) as H.
  vm_compute in H. exact H.
Defined.

(** C9.  A probe leaves the staged storage as it was: the file is neither
    created nor written, the byte count does not move, and the loop goes on
    to the next connection. *)
Theorem probe_leaves_storage_unchanged conn s :
  is_probe conn = true ->
  let r := upload_attempt conn s in
  result r = Returns Continue
  /\ staged (final r) = staged s
  /\ size (final r) = size s
  /\ tmp_dir (final r) = tmp_dir s
  /\ Forall (fun e => is_staging e = false) (events r).
Proof.
  intros H. cbn zeta. rewrite (upload_attempt_probe conn s H). cbn.
  repeat split. repeat constructor.
Qed.

Lemma probe_leaves_storage_unchanged_witness :
  let s := set_size 2 (set_staged (Some (b "he")) initial_state) in
  let r := upload_attempt [Chunk []; Chunk (b "never read")] s in
  result r = Returns Continue
  /\ staged (final r) = Some (b "he")
  /\ size (final r) = 2.
Proof.
  cbv zeta.
  destruct (probe_leaves_storage_unchanged
              [Chunk []; Chunk (b "never read")]
              (set_size 2 (set_staged (Some (b "he")) initial_state)) eq_refl)
    as (H1 & H2 & H3 & _).
  split; [exact H1 | split; [exact H2 | exact H3]].
Defined.

(** C4.  The probe timeout covers the first [recv] only: the timeout is set
    to [PROBE_WAIT] before it, and when the first chunk holds data the
    timeout is cleared, never set again, and every later [recv] of the
    connection runs without a timeout. *)
Theorem timeout_on_first_chunk_only conn s :
  exists first rest,
    events (upload_attempt conn s) =
      SetTimeout (Some PROBE_WAIT) :: Recv (Some PROBE_WAIT) first :: rest
    /\ (first <> [] ->
        exists rest', rest = SetTimeout None :: rest' /\ Forall untimed rest').
Proof.
  destruct conn as [|[[|x d]|e] tl].
  - rewrite upload_attempt_probe by reflexivity. cbn.
    exists [], [SetTimeout None; CloseConn]. split; [reflexivity|]. now intros [].
  - rewrite upload_attempt_probe by reflexivity. cbn.
    exists [], [SetTimeout None; CloseConn]. split; [reflexivity|]. now intros [].
  - rewrite upload_attempt_sender.
    destruct (staging_spec (x :: d) tl (set_conn_timeout None s) eq_refl) as (H1 & _).
    set (w := staging (x :: d) tl (set_conn_timeout None s)) in *.
    assert (Hu : Forall untimed (events w))
      by (eapply Forall_impl; [apply stage_event_untimed | exact H1]).
    destruct (result w) as [[]|e|];
      [ | destruct (is_Exception e) | ]; cbn [events sender_start app];
      (eexists; eexists; split; [reflexivity|]; intros _;
       eexists; split; [reflexivity|];
       try (apply Forall_app; split); auto; repeat constructor).
  - rewrite upload_attempt_first_raises.
    destruct e; cbn; eexists [], _; (split; [reflexivity|]); now intros [].
Qed.

(** The accept loop on a probe: the five events of [probe_trace], and on to
    the next connection in the same state. *)
Lemma accept_loop_probe conn rest s :
  is_probe conn = true ->
  accept_loop (Accepted conn :: rest) s =
  let r := accept_loop rest (set_conn_timeout None s) in
  Run (result r) (final r) (probe_trace ++ events r).
Proof.
  intros H. rewrite accept_loop_accepted.
  rewrite (upload_attempt_probe conn (set_conn_timeout None s) H).
  reflexivity.
Qed.

Lemma accept_loop_probes probes : forall rest s,
  Forall (fun conn => is_probe conn = true) probes ->
  probes <> [] ->
  accept_loop (map Accepted probes ++ rest) s =
  let r := accept_loop rest (set_conn_timeout None s) in
  Run (result r) (final r) (flat_map (fun _ => probe_trace) probes ++ events r).
Proof.
  induction probes as [|conn probes IH]; intros rest s Hp Hne; [congruence|].
  inversion Hp as [|? ? Hc Hps]; subst.
  cbn [map app]. rewrite (accept_loop_probe conn _ s Hc). cbn zeta.
  destruct probes as [|conn' probes].
  - reflexivity.
  - rewrite (IH rest (set_conn_timeout None s) Hps) by discriminate.
    cbn zeta. cbn [result final events flat_map].
    rewrite <- !app_assoc. reflexivity.
Qed.

(** C2.  In the accept loop every connection whose first [recv] brings no
    data is a probe: it is closed, nothing is staged from it (the state the
    next connection finds is the one the loop started in) and the loop
    accepts again.  The first connection whose first [recv] brings data is
    the sender: its timeout is cleared and it is handled as the sender.
    With the directory in place and no error of the file system, the file
    is opened, the first chunk is written, and the staged file holds
    exactly the bytes that connection delivers, which are the bytes
    received from it; when its stream arrives whole the loop returns with
    these bytes staged. *)
Theorem probes_skipped_then_sender_staged probes c1 tl rest s :
  Forall (fun conn => is_probe conn = true) probes ->
  c1 <> [] ->
  let r := accept_loop (map Accepted probes ++ Accepted (Chunk c1 :: tl) :: rest) s in
  let a := upload_attempt (Chunk c1 :: tl) (set_conn_timeout None s) in
  (exists after,
     events r = flat_map (fun _ => probe_trace) probes ++ Accept :: events a ++ after)
  /\ (exists handled, events a = sender_start c1 ++ handled)
  /\ (tmp_dir s = true -> file_faults s = [] ->
      (exists copied, events a = sender_prefix c1 ++ copied)
      /\ staged (final a) = Some (delivered (Chunk c1 :: tl))
      /\ upload_received [] (events a) = delivered (Chunk c1 :: tl)
      /\ (reaches_eof tl = true ->
          result r = Returns tt
          /\ staged (final r) = Some (delivered (Chunk c1 :: tl)))).
Proof.
  intros Hp Hc1 r a.
  destruct c1 as [|x d]; [congruence|].
  assert (HL : forall s', set_conn_timeout None s' = set_conn_timeout None s ->
             let l := accept_loop (Accepted (Chunk (x :: d) :: tl) :: rest) s' in
             (exists after, events l = Accept :: events a ++ after)
             /\ (result a = Returns Break ->
                 result l = Returns tt /\ final l = final a)).
  { intros s' E. cbn zeta. rewrite accept_loop_accepted. cbn zeta. rewrite E. fold a.
    split.
    - destruct (result a) as [[]|e|]; cbn [events].
      + exists []. now rewrite app_nil_r.
      + eexists. reflexivity.
      + exists []. now rewrite app_nil_r.
      + exists []. now rewrite app_nil_r.
    - intros ->. split; reflexivity. }
  assert (Hr : (exists after,
                  events r = flat_map (fun _ => probe_trace) probes
                             ++ Accept :: events a ++ after)
               /\ (result a = Returns Break ->
                   result r = Returns tt /\ final r = final a)).
  { unfold r. destruct probes as [|conn probes].
    - cbn [map app flat_map]. exact (HL s eq_refl).
    - rewrite (accept_loop_probes _ s Hp) by discriminate.
      cbn zeta. cbn [result final events].
      destruct (HL (set_conn_timeout None s) eq_refl) as ([after Ha] & Hb).
      split; [|exact Hb]. rewrite Ha. exists after. reflexivity. }
  destruct Hr as (R1 & R2).
  split; [exact R1 | split].
  - unfold a. rewrite upload_attempt_sender. cbn zeta.
    destruct (result (staging _ _ _)) as [[]|e|];
      [ | destruct (is_Exception e) | ]; cbn [events]; eexists; reflexivity.
  - intros Hd Hf.
    destruct (upload_attempt_clean x d tl (set_conn_timeout None s) Hd Hf)
      as (_ & A2 & A3 & A4 & A5).
    fold a in A2, A3, A4, A5.
    split; [exact A4 | split; [exact A2 | split; [exact A3|]]].
    intros He. destruct (R2 (A5 He)) as (E1 & E2).
    split; [exact E1 | rewrite E2; exact A2].
Qed.

Lemma probes_skipped_then_sender_staged_witness :
  let probes : list connection := [[]; [Chunk []]; [RecvRaises socket_timeout]] in
  let tl : connection := [Chunk (b "ld"); Chunk []] in
  let s := staging_state initial_state in
  let r := accept_loop (map Accepted probes ++ [Accepted (Chunk (b "wor") :: tl)]) s in
  Forall (fun conn => is_probe conn = true) probes
  /\ b "wor" <> []
  /\ result r = Returns tt
  /\ staged (final r) = Some (b "world").
Proof.
  cbv zeta.
  assert (Hp : Forall (fun conn => is_probe conn = true)
                 [[]; [Chunk []]; [RecvRaises socket_timeout]])
    by (repeat constructor).
  assert (Hc : b "wor" <> []) by (vm_compute; discriminate).
  destruct (@probes_skipped_then_sender_staged
              [[]; [Chunk []]; [RecvRaises socket_timeout]] (b "wor")
              [Chunk (b "ld"); Chunk []] [] (staging_state initial_state)
              Hp Hc) as (_ & _ & H3).
  destruct (H3 eq_refl eq_refl) as (_ & _ & _ & H5).
  destruct (H5 eq_refl) as (R1 & R2).
  split; [exact Hp | split; [exact Hc | split; [exact R1 | exact R2]]].
Defined.


(** An error of the file system does the same: here the first
    [f.write] raises, the handler closes the connection, and the loop
    accepts the second connection, whose bytes are staged. *)
Lemma upload_retried_after_write_error :
  let ups := [Accepted [Chunk (b "ab"); Chunk []];
              Accepted [Chunk (b "cd"); Chunk []]] in
  let s := set_file_faults [false; true] (staging_state initial_state) in
  let r := accept_upload 9000 None ups s in
  accepted (events r) = 2%nat
  /\ staged (final r) = Some (b "cd")
  /\ result r = Returns 2.
Proof. vm_compute. repeat split; reflexivity. Qed.



(** ** The program without what it prints *)

Lemma silent_app e1 e2 : silent (e1 ++ e2) = silent e1 ++ silent e2.
Proof. apply filter_app. Qed.

Lemma observe_inv {A} (r1 r2 : run A) :
  observe r1 = observe r2 ->
  result r1 = result r2 /\ final r1 = final r2 /\ silent (events r1) = silent (events r2).
Proof. unfold observe. intros H. injection H. auto. Qed.

Lemma equiv_refl {A} (m : M A) : equiv m m.
Proof. intros s. reflexivity. Qed.

Lemma equiv_trans {A} (m1 m2 m3 : M A) : equiv m1 m2 -> equiv m2 m3 -> equiv m1 m3.
Proof. intros H1 H2 s. now rewrite H1. Qed.

Lemma bind_equiv {A B} (m1 m2 : M A) (k1 k2 : A -> M B) :
  equiv m1 m2 -> (forall a, equiv (k1 a) (k2 a)) -> equiv (bind m1 k1) (bind m2 k2).
Proof.
  intros Hm Hk s. unfold bind.
  destruct (observe_inv (Hm s)) as (Hr & Hf & He).
  destruct (m1 s) as [o1 f1 e1], (m2 s) as [o2 f2 e2]. cbn [result final events] in Hr, Hf, He. subst o2 f2.
  destruct o1 as [a|e|].
  - destruct (observe_inv (Hk a f1)) as (Hr' & Hf' & He').
    destruct (k1 a f1) as [o1' f1' e1'], (k2 a f1) as [o2' f2' e2'].
    cbn [result final events] in Hr', Hf', He'. subst. unfold observe. cbn [result final events].
    rewrite !silent_app, He, He'. reflexivity.
  - unfold observe. cbn [result final events]. now rewrite He.
  - unfold observe. cbn [result final events]. now rewrite He.
Qed.

Lemma try_except_equiv {A} (m1 m2 : M A) catches (h1 h2 : M A) :
  equiv m1 m2 -> equiv h1 h2 ->
  equiv (try_except m1 catches h1) (try_except m2 catches h2).
Proof.
  intros Hm Hh s. unfold try_except.
  destruct (observe_inv (Hm s)) as (Hr & Hf & He).
  destruct (m1 s) as [o1 f1 e1], (m2 s) as [o2 f2 e2]. cbn [result final events] in Hr, Hf, He. subst o2 f2.
  destruct o1 as [a|e|].
  - unfold observe. cbn [result final events]. now rewrite He.
  - destruct (catches e).
    + destruct (observe_inv (Hh f1)) as (Hr' & Hf' & He').
      destruct (h1 f1) as [o1' f1' e1'], (h2 f1) as [o2' f2' e2'].
      cbn [result final events] in Hr', Hf', He'. subst. unfold observe. cbn [result final events].
      rewrite !silent_app, He, He'. reflexivity.
    + unfold observe. cbn [result final events]. now rewrite He.
  - unfold observe. cbn [result final events]. now rewrite He.
Qed.

Lemma prints_only_inv (m : M unit) s :
  prints_only m ->
  result (m s) = Returns tt /\ final (m s) = s /\ silent (events (m s)) = [].
Proof. intros H. specialize (H s). unfold observe in H. injection H. auto. Qed.

Lemma prints_only_print line : prints_only (print line).
Proof. intros s. reflexivity. Qed.

Lemma prints_only_seq (m1 m2 : M unit) :
  prints_only m1 -> prints_only m2 -> prints_only (m1 ;; m2).
Proof.
  intros H1 H2 s. unfold bind.
  destruct (prints_only_inv s H1) as (Hr & Hf & He).
  destruct (m1 s) as [o1 f1 e1]. cbn [result final events] in Hr, Hf, He. subst.
  destruct (prints_only_inv s H2) as (Hr' & Hf' & He').
  destruct (m2 s) as [o2 f2 e2]. cbn [result final events] in Hr', Hf', He'. subst.
  unfold observe. cbn [result final events]. rewrite silent_app, He, He'. reflexivity.
Qed.

Ltac prints :=
  repeat first [ apply prints_only_seq | apply prints_only_print ].

Lemma prints_only_box_title cols text color : prints_only (box_title cols text color).
Proof. unfold box_title. prints. Qed.

Lemma prints_only_box_footer cols color : prints_only (box_footer cols color).
Proof. unfold box_footer. prints. Qed.

Lemma prints_only_mode_header name color : prints_only (mode_header name color).
Proof. unfold mode_header. prints. Qed.

Lemma prints_only_cmd_block cols cmd : prints_only (cmd_block cols cmd).
Proof. unfold cmd_block. prints. Qed.

Lemma prints_only_info_kv k v : prints_only (info_kv k v).
Proof. unfold info_kv. prints. Qed.

Ltac prints_all :=
  repeat first
    [ apply prints_only_seq | apply prints_only_print | apply prints_only_box_title
    | apply prints_only_box_footer | apply prints_only_mode_header
    | apply prints_only_cmd_block | apply prints_only_info_kv ].

Lemma prints_only_banner cols pub port bname password :
  prints_only (banner cols pub port bname password).
Proof. unfold banner. prints_all. Qed.

Lemma prints_only_sender_commands cols pub port bname password :
  prints_only (print_sender_commands cols pub port bname password).
Proof. unfold print_sender_commands. prints_all. Qed.

Lemma prints_only_receiver_commands cols pub port bname password :
  prints_only (print_receiver_commands cols pub port bname password).
Proof. unfold print_receiver_commands. prints_all. Qed.

(** Prints in front of a computation. *)
Lemma skip_prints {B} (p : M unit) (k : M B) :
  prints_only p -> equiv (p ;; k) k.
Proof.
  intros H s. unfold bind.
  destruct (prints_only_inv s H) as (Hr & Hf & He).
  destruct (p s) as [o1 f1 e1]. cbn [result final events] in Hr, Hf, He. subst.
  destruct (k s) as [o2 f2 e2]. unfold observe. cbn [result final events].
  rewrite silent_app, He. reflexivity.
Qed.

(** Prints behind a computation. *)
Lemma drop_prints {A} (m : M A) (p : A -> M unit) :
  (forall a, prints_only (p a)) -> equiv (bind m p) (bind m (fun _ => ret tt)).
Proof.
  intros H. apply bind_equiv; [apply equiv_refl|].
  intros a s. rewrite (H a s). reflexivity.
Qed.

Lemma bind_ret_tt (m : M unit) : equiv (m ;; ret tt) m.
Proof.
  intros s. unfold bind, ret.
  destruct (m s) as [[[]|e|] f ev]; unfold observe; cbn [result final events]; rewrite ?app_nil_r; reflexivity.
Qed.

Lemma prints_only_equiv (p : M unit) : prints_only p -> equiv p (ret tt).
Proof. intros H s. rewrite (H s). reflexivity. Qed.

Ltac skip_print :=
  eapply equiv_trans; [apply skip_prints; prints_all; fail|].

(** [main] and [main_silent] differ in what they print only. *)
Lemma main_equiv args env : equiv (main args env) (main_silent args env).
Proof.
  unfold main, main_silent. cbv zeta.
  apply bind_equiv; [apply equiv_refl | intros _].
  skip_print.
  eapply equiv_trans; [apply skip_prints, prints_only_banner|].
  eapply equiv_trans; [apply skip_prints, prints_only_sender_commands|].
  eapply equiv_trans; [apply skip_prints, prints_only_receiver_commands|].
  do 3 skip_print.
  apply bind_equiv.
  - apply try_except_equiv.
    + apply drop_prints. intros size. prints.
    + skip_print. apply equiv_refl.
  - intros _. do 4 skip_print.
    apply bind_equiv.
    + apply try_except_equiv.
      * eapply equiv_trans; [apply drop_prints; intros; prints | apply bind_ret_tt].
      * apply prints_only_equiv. prints.
    + intros _.
      eapply equiv_trans; [apply drop_prints; intros; prints | apply bind_ret_tt].
Qed.

(** The two deletions always return: both are attempted, in this order, and
    what they raise is dropped. *)
Lemma cleanup_run env s :
  exists s', cleanup env s = Run (Returns tt) s' [Remove; Rmdir]
             /\ (remove_fails env = false -> staged s' = None)
             /\ (remove_fails env = false -> rmdir_fails env = false ->
                 tmp_dir s' = false).
Proof.
  unfold cleanup. run_monad.
  destruct (staged s) as [content|] eqn:Hs, (remove_fails env), (rmdir_fails env),
    (tmp_dir s) eqn:Hd;
    cbn; rewrite ?Hs, ?Hd; cbn; eexists; (split; [reflexivity|]); cbn; auto;
    split; intros; try discriminate; auto.
Qed.

Lemma upload_event_phase_event e : upload_event e -> phase_event e.
Proof. destruct e; simpl; auto. Qed.

Lemma upload_event_quiet e : upload_event e -> quiet e.
Proof. destruct e; simpl; auto. Qed.

Lemma send_event_phase_event e : send_event e -> phase_event e.
Proof. destruct e; simpl; auto. Qed.

Lemma send_event_quiet e : send_event e -> quiet e.
Proof. destruct e; simpl; auto. Qed.

Lemma listeners_sequential_quiet body : forall open rest,
  Forall quiet body ->
  listeners_sequential open (body ++ rest) = listeners_sequential open rest.
Proof.
  induction body as [|e body IH]; intros open rest H; [reflexivity|].
  inversion H as [|? ? He Hb]; subst. cbn [app].
  destruct e; cbn in He; try contradiction; cbn; apply IH; exact Hb.
Qed.

Lemma listeners_sequential_silent evs : forall open,
  listeners_sequential open (silent evs) = listeners_sequential open evs.
Proof.
  induction evs as [|e evs IH]; intros open; [reflexivity|].
  destruct e; cbn; rewrite ?IH; reflexivity.
Qed.

Lemma on_port_silent port evs :
  Forall (on_port port) (silent evs) -> Forall (on_port port) evs.
Proof.
  induction evs as [|e evs IH]; intros H; [constructor|].
  destruct e; cbn in H; try (inversion H; subst; constructor; auto);
    constructor; cbn; auto.
Qed.

Lemma silent_phase_events evs : Forall phase_event evs -> silent evs = evs.
Proof.
  induction 1 as [|e evs He _ IH]; [reflexivity|].
  destruct e; cbn in He; try contradiction; cbn; f_equal; exact IH.
Qed.

Lemma phase_event_not_deletion evs :
  Forall phase_event evs -> Forall (fun e => is_deletion e = false) evs.
Proof.
  apply Forall_impl. intros e He. destruct e; cbn in He; try contradiction; reflexivity.
Qed.

Ltac forall_events :=
  repeat first
    [ assumption | apply Forall_nil | apply Forall_app; split
    | apply Forall_cons; [first [exact I | reflexivity]|] ].

(** The events of the upload phase: nothing when the socket cannot be
    bound; otherwise the listening socket, the accept loop, and the close
    of the socket unless the loop blocks for ever. *)
Lemma accept_upload_events port bind_error ups s :
  let r := accept_upload port bind_error ups s in
  Forall phase_event (events r)
  /\ Forall (on_port port) (events r)
  /\ listeners_sequential false (events r) = true
  /\ forall rest,
       result r <> Hangs ->
       listeners_sequential false (events r ++ rest) = listeners_sequential false rest.
Proof.
  cbn zeta. rewrite accept_upload_run.
  destruct bind_error as [e|].
  - cbn. repeat split; constructor.
  - cbn zeta.
    destruct (accept_loop_spec ups (set_size 0 s)) as (H1 & _ & _).
    assert (Hp : Forall phase_event (events (accept_loop ups (set_size 0 s))))
      by (eapply Forall_impl; [apply upload_event_phase_event | exact H1]).
    assert (Hq : Forall quiet (events (accept_loop ups (set_size 0 s))))
      by (eapply Forall_impl; [apply upload_event_quiet | exact H1]).
    assert (Ho : Forall (on_port port) (events (accept_loop ups (set_size 0 s)))).
    { eapply Forall_impl; [|exact Hq]. intros e He. destruct e; cbn in *; tauto. }
    destruct (result (accept_loop ups (set_size 0 s))) as [[]|e|]; cbn [result events];
      (split; [forall_events | split; [forall_events | split]]);
      try (intros rest Hr); try congruence;
      cbn [app listeners_sequential negb andb];
      rewrite <- ?app_assoc, ?listeners_sequential_quiet by exact Hq;
      try reflexivity.
    rewrite <- (app_nil_r (events _)), listeners_sequential_quiet by exact Hq.
    reflexivity.
Qed.

(** The events of the download phase. *)
Lemma serve_download_events port bind_error dn s :
  let r := serve_download port bind_error dn s in
  Forall phase_event (events r)
  /\ Forall (on_port port) (events r)
  /\ listeners_sequential false (events r) = true
  /\ forall rest,
       result r <> Hangs ->
       listeners_sequential false (events r ++ rest) = listeners_sequential false rest.
Proof.
  cbn zeta. rewrite serve_download_run.
  destruct bind_error as [e|]; [cbn; repeat split; constructor|].
  destruct dn as [[conn|e]|];
    [|cbn; repeat split; forall_events; intros; congruence..].
  destruct (staged s) as [content|]; [|cbn; repeat split; forall_events].
  cbn zeta.
  destruct (send_loop_spec (chunks (Z.to_nat CHUNK_SIZE) content) (sends conn) s)
    as (_ & H2 & H3 & _).
  set (l := send_loop (chunks (Z.to_nat CHUNK_SIZE) content) (sends conn) s) in *.
  assert (Hp : Forall phase_event (events l))
    by (eapply Forall_impl; [apply send_event_phase_event | exact H2]).
  assert (Hq : Forall quiet (events l))
    by (eapply Forall_impl; [apply send_event_quiet | exact H2]).
  assert (Ho : Forall (on_port port) (events l)).
  { eapply Forall_impl; [|exact Hq]. intros e He. destruct e; cbn in *; tauto. }
  destruct (result l) as [[]|e|]; [| |congruence]; cbn [result events];
    (split; [forall_events | split; [forall_events | split]]);
    try (intros rest Hr);
    cbn [app listeners_sequential negb andb];
    rewrite <- ?app_assoc, ?listeners_sequential_quiet by exact Hq;
    reflexivity.
Qed.

(** [main_silent] by the outcomes of the two phases. *)
Lemma main_silent_run args env s :
  let up := upload_run args env s in
  let down := download_run args env s in
  main_silent args env s =
  match result up with
  | Returns _ =>
      match result down with
      | Returns _ | Raises KeyboardInterrupt =>
          let c := cleanup env (final down) in
          Run (Returns tt) (final c) (Mkdtemp :: events up ++ events down ++ events c)
      | Raises e => Run (Raises e) (final down) (Mkdtemp :: events up ++ events down)
      | Hangs => Run Hangs (final down) (Mkdtemp :: events up ++ events down)
      end
  | Raises KeyboardInterrupt =>
      let c := cleanup env (final up) in
      Run (Raises (SystemExit 130)) (final c) (Mkdtemp :: events up ++ events c)
  | Raises e => Run (Raises e) (final up) (Mkdtemp :: events up)
  | Hangs => Run Hangs (final up) (Mkdtemp :: events up)
  end.
Proof.
  cbn zeta. unfold download_run, upload_run, main_silent, staging_state. run_monad.
  destruct (accept_upload _ _ _ _) as [[n|e|] f ev]; cbn [result final events].
  - destruct (serve_download _ _ _ f) as [[[]|e|] f' ev']; cbn [result final events].
    + destruct (cleanup_run env f') as (s' & -> & _). cbn. rewrite app_nil_r. reflexivity.
    + destruct e; cbn; rewrite ?app_nil_r; try reflexivity.
      destruct (cleanup_run env f') as (s' & -> & _). cbn. reflexivity.
    + cbn. rewrite app_nil_r. reflexivity.
  - destruct e; cbn; try reflexivity.
    destruct (cleanup_run env f) as (s' & -> & _). cbn. reflexivity.
  - reflexivity.
Qed.

(** ** The claims on the program *)

Lemma main_observed args env s :
  result (main args env s) = result (main_silent args env s)
  /\ final (main args env s) = final (main_silent args env s)
  /\ silent (events (main args env s)) = silent (events (main_silent args env s)).
Proof. apply observe_inv, main_equiv. Qed.

Lemma accept_upload_tmp_dir port bind_error ups s :
  tmp_dir (final (accept_upload port bind_error ups s)) = tmp_dir s.
Proof.
  rewrite accept_upload_run. destruct bind_error as [e|]; [reflexivity|].
  cbn zeta. destruct (accept_loop_spec ups (set_size 0 s)) as (_ & Hd & _).
  destruct (result (accept_loop ups (set_size 0 s))) as [[]|e|]; exact Hd.
Qed.

Lemma serve_download_final port bind_error dn s :
  final (serve_download port bind_error dn s) = s.
Proof.
  rewrite serve_download_run. destruct bind_error as [e|]; [reflexivity|].
  destruct dn as [[conn|e]|]; try reflexivity.
  destruct (staged s) as [content|]; [|reflexivity].
  cbn zeta.
  destruct (send_loop_spec (chunks (Z.to_nat CHUNK_SIZE) content) (sends conn) s)
    as (H1 & _).
  destruct (result (send_loop _ _ s)) as [[]|e|]; exact H1.
Qed.

Lemma not_deletion_silent evs :
  Forall (fun e => is_deletion e = false) (silent evs) ->
  Forall (fun e => is_deletion e = false) evs.
Proof.
  unfold silent. induction evs as [|e evs IH]; intros H; [constructor|].
  destruct e; cbn in H |- *;
    try (inversion H; subst; constructor; [assumption | apply IH; assumption]).
  constructor; [reflexivity | apply IH; exact H].
Qed.

(** C5, as the spec states it, fails: the run below terminates, on an
    error of [sendall] that nothing catches, and deletes nothing: the
    staged file and the directory stay behind. *)
Lemma no_cleanup_after_download_error :
  let r := main example_args (example_env (Some (Accepted resetting_client)))
             initial_state in
  result r = Raises OSError
  /\ existsb is_deletion (events r) = false
  /\ staged (final r) = Some (b "world")
  /\ tmp_dir (final r) = true.
Proof. vm_compute. repeat split; reflexivity. Qed.

(** C5, amended.  On each of the three listed paths (the download phase
    returns, KeyboardInterrupt during the upload phase, KeyboardInterrupt
    during the download phase) the last two things the program does, but
    for printing, are [os.remove] of the staged file and then [os.rmdir]
    of the directory; whether they fail or not the program ends the same
    way, with exit status 130 after an interrupted upload and normally
    otherwise; and when they do not fail the file and the directory are
    gone.  On every other run, whichever exception ends a phase and
    whichever phase it is, the program does not return, the exception of
    the phase leaves [main] as it is, no [os.remove] and no [os.rmdir] is
    attempted at any point of the run, and the directory is still there
    with whatever the phase left in it. *)
Theorem cleanup_on_listed_paths args env s :
  let r := main args env s in
  let up := upload_run args env s in
  let down := download_run args env s in
  (forall p, listed_path args env s = Some p ->
     result r = match p with
                | UploadInterrupted => Raises (SystemExit 130)
                | _ => Returns tt
                end
     /\ (exists before,
           silent (events r) = before ++ [Remove; Rmdir]
           /\ Forall (fun e => is_deletion e = false) before)
     /\ (remove_fails env = false -> staged (final r) = None)
     /\ (remove_fails env = false -> rmdir_fails env = false ->
         tmp_dir (final r) = false))
  /\ (listed_path args env s = None ->
      result r <> Returns tt
      /\ (result r = match result up with
                     | Returns _ => result down
                     | Raises e => Raises e
                     | Hangs => Hangs
                     end)
      /\ Forall (fun e => is_deletion e = false) (events r)
      /\ tmp_dir (final r) = true
      /\ staged (final r) = staged (final up)).
Proof.
  cbn zeta.
  destruct (main_observed args env s) as (Ho1 & Ho2 & Ho3).
  pose proof (main_silent_run args env s) as Hrun. cbn zeta in Hrun.
  destruct (accept_upload_events (args_port args) (upload_bind_error env) (uploads env)
              (staging_state s)) as (Hup & _).
  destruct (serve_download_events (args_port args) (download_bind_error env) (download env)
              (final (upload_run args env s))) as (Hdown & _).
  fold (upload_run args env s) in Hup. fold (download_run args env s) in Hdown.
  assert (Hshape : forall evs, Forall phase_event evs ->
            exists before,
              silent (Mkdtemp :: evs ++ [Remove; Rmdir]) = before ++ [Remove; Rmdir]
              /\ Forall (fun e => is_deletion e = false) before).
  { intros evs Hevs. exists (Mkdtemp :: evs). split.
    - change (Mkdtemp :: evs ++ [Remove; Rmdir]) with ((Mkdtemp :: evs) ++ [Remove; Rmdir]).
      rewrite silent_app. f_equal.
      cbn. f_equal. apply silent_phase_events; exact Hevs.
    - constructor; [reflexivity | apply phase_event_not_deletion; exact Hevs]. }
  assert (Hquiet : forall evs, Forall phase_event evs ->
            Forall (fun e => is_deletion e = false) (silent (Mkdtemp :: evs))).
  { intros evs Hevs. cbn. constructor; [reflexivity|].
    rewrite silent_phase_events by exact Hevs.
    apply phase_event_not_deletion; exact Hevs. }
  assert (Hdir : tmp_dir (final (upload_run args env s)) = true).
  { unfold upload_run. rewrite accept_upload_tmp_dir. reflexivity. }
  assert (Hfin : final (download_run args env s) = final (upload_run args env s)).
  { unfold download_run. apply serve_download_final. }
  split.
  - intros p Hp. rewrite Ho1, Ho2, Ho3. unfold listed_path in Hp.
    destruct (result (upload_run args env s)) as [n|e|]; [| |discriminate].
    + destruct (result (download_run args env s)) as [[]|e|]; [| |discriminate].
      * destruct (cleanup_run env (final (download_run args env s)))
          as (s' & Hc & H1 & H2).
        rewrite Hc in Hrun. cbn [final events] in Hrun. rewrite Hrun.
        injection Hp as <-. cbn [result final events].
        rewrite app_assoc. repeat split; auto.
        apply Hshape. apply Forall_app; auto.
      * destruct e; try discriminate.
        destruct (cleanup_run env (final (download_run args env s)))
          as (s' & Hc & H1 & H2).
        rewrite Hc in Hrun. cbn [final events] in Hrun. rewrite Hrun.
        injection Hp as <-. cbn [result final events].
        rewrite app_assoc. repeat split; auto.
        apply Hshape. apply Forall_app; auto.
    + destruct e; try discriminate.
      destruct (cleanup_run env (final (upload_run args env s))) as (s' & Hc & H1 & H2).
      rewrite Hc in Hrun. cbn [final events] in Hrun. rewrite Hrun.
      injection Hp as <-. cbn [result final events].
      repeat split; auto.
  - intros Hp. unfold listed_path in Hp.
    assert (Hgoal : forall o f evs,
              main_silent args env s = Run o f (Mkdtemp :: evs) ->
              Forall phase_event evs ->
              Forall (fun e => is_deletion e = false) (events (main args env s))
              /\ result (main args env s) = o /\ final (main args env s) = f).
    { intros o f evs Hm Hevs. rewrite Ho1, Ho2, Hm. cbn [result final].
      split; [|split; reflexivity].
      apply not_deletion_silent. rewrite Ho3, Hm. cbn [events].
      apply Hquiet. exact Hevs. }
    destruct (result (upload_run args env s)) as [n|e|].
    + destruct (result (download_run args env s)) as [[]|e|]; [discriminate| |].
      * destruct e; try discriminate;
          (destruct (Hgoal _ _ _ Hrun) as (G1 & G2 & G3);
           [apply Forall_app; auto|];
           rewrite G2, G3, Hfin;
           split; [discriminate | split; [reflexivity | split; [exact G1 | split;
             [exact Hdir | reflexivity]]]]).
      * destruct (Hgoal _ _ _ Hrun) as (G1 & G2 & G3); [apply Forall_app; auto|].
        rewrite G2, G3, Hfin.
        split; [discriminate | split; [reflexivity | split; [exact G1 | split;
          [exact Hdir | reflexivity]]]].
    + destruct e; try discriminate;
        (destruct (Hgoal _ _ _ Hrun) as (G1 & G2 & G3); [exact Hup|];
         rewrite G2, G3;
         split; [discriminate | split; [reflexivity | split; [exact G1 | split;
           [exact Hdir | reflexivity]]]]).
    + destruct (Hgoal _ _ _ Hrun) as (G1 & G2 & G3); [exact Hup|].
      rewrite G2, G3.
      split; [discriminate | split; [reflexivity | split; [exact G1 | split;
        [exact Hdir | reflexivity]]]].
Qed.

Lemma cleanup_on_listed_paths_witness :
  (listed_path example_args (example_env (Some (Accepted example_client))) initial_state
   = Some DownloadCompleted
   /\ result (main example_args (example_env (Some (Accepted example_client)))
                initial_state) = Returns tt)
  /\ (listed_path example_args (example_env (Some (AcceptRaises KeyboardInterrupt)))
        initial_state = Some DownloadInterrupted
      /\ staged (final (main example_args
                          (example_env (Some (AcceptRaises KeyboardInterrupt)))
                          initial_state)) = None)
  /\ (listed_path example_args interrupted_env initial_state = Some UploadInterrupted
      /\ result (main example_args interrupted_env initial_state)
         = Raises (SystemExit 130))
  /\ (listed_path example_args (example_env (Some (Accepted resetting_client)))
        initial_state = None
      /\ Forall (fun e => is_deletion e = false)
           (events (main example_args (example_env (Some (Accepted resetting_client)))
                      initial_state))).
Proof.
  assert (H1 : listed_path example_args (example_env (Some (Accepted example_client)))
                 initial_state = Some DownloadCompleted) by (vm_compute; reflexivity).
  assert (H2 : listed_path example_args
                 (example_env (Some (AcceptRaises KeyboardInterrupt)))
                 initial_state = Some DownloadInterrupted) by (vm_compute; reflexivity).
  assert (H3 : listed_path example_args interrupted_env initial_state
               = Some UploadInterrupted) by (vm_compute; reflexivity).
  assert (H4 : listed_path example_args (example_env (Some (Accepted resetting_client)))
                 initial_state = None) by (vm_compute; reflexivity).
  split; [split; [exact H1|] | split; [split; [exact H2|] | split;
    [split; [exact H3|] | split; [exact H4|]]]].
  - exact (proj1 (proj1 (cleanup_on_listed_paths _ _ _) _ H1)).
  - exact (proj1 (proj2 (proj2 (proj1 (cleanup_on_listed_paths _ _ _) _ H2))) eq_refl).
  - exact (proj1 (proj1 (cleanup_on_listed_paths _ _ _) _ H3)).
  - exact (proj1 (proj2 (proj2 (proj2 (cleanup_on_listed_paths _ _ _) H4)))).
Defined.

(** C6.  In every run of the program no listening socket is created while
    another one is open, and every listening socket is bound to the port of
    the command line: the socket of the download phase is created after
    the socket of the upload phase has been closed, on the same port. *)
Theorem phases_listen_one_after_the_other args env s :
  let evs := events (main args env s) in
  listeners_sequential false evs = true
  /\ Forall (on_port (args_port args)) evs.
Proof.
  cbn zeta.
  rewrite <- listeners_sequential_silent.
  destruct (main_observed args env s) as (_ & _ & ->).
  rewrite listeners_sequential_silent.
  assert (Hgoal : listeners_sequential false (events (main_silent args env s)) = true
                  /\ Forall (on_port (args_port args)) (events (main_silent args env s))).
  { rewrite main_silent_run. cbn zeta.
    destruct (accept_upload_events (args_port args) (upload_bind_error env) (uploads env)
                (staging_state s)) as (_ & Uport & Useq & Uapp).
    destruct (serve_download_events (args_port args) (download_bind_error env)
                (download env) (final (upload_run args env s))) as (_ & Dport & Dseq & Dapp).
    fold (upload_run args env s) in Uport, Useq, Uapp.
    fold (download_run args env s) in Dport, Dseq, Dapp.
    assert (Hc : forall f, events (cleanup env f) = [Remove; Rmdir])
      by (intros f; destruct (cleanup_run env f) as (s' & -> & _); reflexivity).
    destruct (result (upload_run args env s)) as [n|e|] eqn:Hu.
    - destruct (result (download_run args env s)) as [[]|e|] eqn:Hd.
      + cbn [events listeners_sequential]. rewrite Hc. split.
        * rewrite Uapp by congruence. rewrite Dapp by congruence. reflexivity.
        * forall_events.
      + assert (Hcases :
          listeners_sequential false
            (Mkdtemp :: events (upload_run args env s) ++ events (download_run args env s)
               ++ [Remove; Rmdir]) = true
          /\ listeners_sequential false
               (Mkdtemp :: events (upload_run args env s)
                  ++ events (download_run args env s)) = true).
        { cbn [listeners_sequential]. split.
          - rewrite Uapp by congruence. rewrite Dapp by congruence. reflexivity.
          - rewrite Uapp by congruence. exact Dseq. }
        destruct e; cbn [events]; rewrite ?Hc; (split; [tauto | forall_events]).
      + cbn [events listeners_sequential]. split.
        * rewrite Uapp by congruence. exact Dseq.
        * forall_events.
    - assert (Hcases :
        listeners_sequential false
          (Mkdtemp :: events (upload_run args env s) ++ [Remove; Rmdir]) = true
        /\ listeners_sequential false (Mkdtemp :: events (upload_run args env s)) = true).
      { cbn [listeners_sequential]. split; [|exact Useq].
        rewrite Uapp by congruence. reflexivity. }
      destruct e; cbn [events]; rewrite ?Hc; (split; [tauto | forall_events]).
    - cbn [events listeners_sequential]. split; [exact Useq | forall_events]. }
  split; [tauto|].
  apply on_port_silent.
  destruct (main_observed args env s) as (_ & _ & ->).
  destruct Hgoal as (_ & Hport).
  clear - Hport. induction Hport as [|e evs He _ IH]; [constructor|].
  destruct e; cbn; try constructor; auto.
Qed.

Lemma sent_silent evs : sent (silent evs) = sent evs.
Proof.
  unfold silent. induction evs as [|e evs IH]; [reflexivity|].
  destruct e; cbn; rewrite ?IH; reflexivity.
Qed.

(** C7.  The password is not enforced by the relay: two runs that differ in
    the password only, supplied on the command line or drawn at random,
    end the same way, in the same state, and make the same calls with the
    same bytes (the same writes to the staged file, the same bytes sent to
    the download client); they differ in what they print only. *)
Theorem password_does_not_reach_the_relay args env pw1 rb1 pw2 rb2 s :
  let r1 := main (with_password pw1 args) (with_randbelow rb1 env) s in
  let r2 := main (with_password pw2 args) (with_randbelow rb2 env) s in
  result r1 = result r2
  /\ final r1 = final r2
  /\ silent (events r1) = silent (events r2)
  /\ sent (events r1) = sent (events r2).
Proof.
  cbn zeta.
  destruct (main_observed (with_password pw1 args) (with_randbelow rb1 env) s)
    as (R1 & F1 & E1).
  destruct (main_observed (with_password pw2 args) (with_randbelow rb2 env) s)
    as (R2 & F2 & E2).
  assert (Hsame : main_silent (with_password pw1 args) (with_randbelow rb1 env) s
                  = main_silent (with_password pw2 args) (with_randbelow rb2 env) s)
    by reflexivity.
  rewrite Hsame in R1, F1, E1.
  assert (E : silent (events (main (with_password pw1 args) (with_randbelow rb1 env) s))
              = silent (events (main (with_password pw2 args) (with_randbelow rb2 env) s)))
    by congruence.
  split; [congruence | split; [congruence | split; [exact E|]]].
  rewrite <- sent_silent, E, sent_silent. reflexivity.
Qed.

(** The password does reach what is printed: the ninth event of a run is
    the line of the banner that shows it. *)
Example password_is_printed :
  nth 8 (events (main (with_password (Some "hunter2"%string) example_args)
                   (example_env None) initial_state)) Mkdtemp
  = Print (DIM ++ "Password (encrypted mode):" ++ RESET ++ " " ++ BRIGHT_WHITE
             ++ "hunter2" ++ RESET)%string.
Proof. vm_compute. reflexivity. Qed.

Lemma length_string_of_list_ascii l :
  String.length (string_of_list_ascii l) = List.length l.
Proof. induction l as [|c l IH]; cbn; auto. Qed.

Lemma alphabet_is_alnum :
  Forall (fun c => is_alnum c = true) (list_ascii_of_string alphabet).
Proof.
  apply Forall_forall. apply forallb_forall. vm_compute. reflexivity.
Qed.

Lemma length_alphabet : String.length alphabet = 62%nat.
Proof. reflexivity. Qed.

Lemma gen_password_shape rb n :
  (forall i k, (0 < k)%nat -> (rb i k < k)%nat) ->
  String.length (gen_password rb n) = n
  /\ Forall (fun c => is_alnum c = true) (list_ascii_of_string (gen_password rb n)).
Proof.
  intros Hrb. unfold gen_password. split.
  - rewrite length_string_of_list_ascii, length_map, length_seq. reflexivity.
  - rewrite list_ascii_of_string_of_list_ascii.
    apply Forall_map, Forall_forall. intros i _.
    pose proof alphabet_is_alnum as Ha. rewrite Forall_forall in Ha.
    apply Ha. unfold choice. apply nth_In.
    rewrite length_alphabet.
    replace (List.length (list_ascii_of_string alphabet)) with 62%nat by reflexivity.
    apply Hrb. lia.
Qed.

(** C8.  When the command line holds no password, the password the program
    uses is the generated one: ten characters, each an ASCII letter or an
    ASCII digit.  The draws of [secrets.choice] are below their bound. *)
Theorem generated_password_is_ten_alnum args env :
  args_password args = None ->
  (forall i n, (0 < n)%nat -> (randbelow env i n < n)%nat) ->
  let password := choose_password args env in
  String.length password = 10%nat
  /\ Forall (fun c => is_alnum c = true) (list_ascii_of_string password).
Proof.
  intros Hnone Hrb. cbn zeta. unfold choose_password. rewrite Hnone.
  apply gen_password_shape. exact Hrb.
Qed.

Lemma generated_password_is_ten_alnum_witness :
  args_password example_args = None
  /\ (forall i n, (0 < n)%nat -> (randbelow (example_env None) i n < n)%nat)
  /\ choose_password example_args (example_env None) = "dkryFMT07e"%string
  /\ String.length (choose_password example_args (example_env None)) = 10%nat.
Proof.
  assert (Hrb : forall i n, (0 < n)%nat -> (randbelow (example_env None) i n < n)%nat).
  { intros i n Hn. cbn [randbelow example_env]. apply Nat.mod_upper_bound. lia. }
  split; [reflexivity | split; [exact Hrb | split; [vm_compute; reflexivity|]]].
  exact (proj1 (generated_password_is_ten_alnum example_args (example_env None)
                  eq_refl Hrb)).
Defined.

(** * Further properties *)

(** ** The byte count of the upload phase *)

Lemma len_app a c : len (a ++ c) = len a + len c.
Proof. unfold len. rewrite length_app. lia. Qed.

Lemma len_nonneg a : 0 <= len a.
Proof. unfold len. lia. Qed.

Lemma len_cons_pos (x : byte) d : 0 < len (x :: d).
Proof. unfold len. cbn [List.length]. lia. Qed.

Lemma written_app e1 e2 : written (e1 ++ e2) = written e1 + written e2.
Proof.
  induction e1 as [|e e1 IH]; cbn [app written]; [lia|].
  destruct e; rewrite ?IH; lia.
Qed.

Lemma written_nonneg evs : 0 <= written evs.
Proof.
  induction evs as [|e evs IH]; cbn [written]; [lia|].
  destruct e; try exact IH. pose proof (len_nonneg data). lia.
Qed.

Lemma copy_loop_written conn : forall s old,
  staged s = Some old ->
  let r := copy_loop conn s in
  size (final r) = size s + written (events r)
  /\ exists new, staged (final r) = Some (old ++ new) /\ len new = written (events r).
Proof.
  induction conn as [|o rest IH]; intros s old Hs; cbn [copy_loop].
  - run_monad.
    destruct (conn_timeout s); cbn; (split; [lia|]); exists []; rewrite app_nil_r; auto.
  - destruct o as [[|x data]|e]; run_monad.
    + cbn. split; [lia|]. exists []. rewrite app_nil_r. auto.
    + file_answer s; rewrite ?Hs.
      * cbn. split; [lia|]. exists []. rewrite app_nil_r. auto.
      * match goal with |- context [copy_loop rest ?s1] =>
          specialize (IH s1 (old ++ x :: data) eq_refl);
          destruct (copy_loop rest s1) as [o f ev]
        end.
        cbn [result final events size set_size written after_call set_file_faults
             set_staged app] in *.
        destruct IH as (H1 & new & H2 & H3). split; [lia|].
        exists ((x :: data) ++ new). split.
        -- rewrite H2, <- app_assoc. reflexivity.
        -- rewrite len_app. lia.
    + cbn. split; [lia|]. exists []. rewrite app_nil_r. auto.
Qed.

Lemma staging_written x d rest s :
  let w := staging (x :: d) rest s in
  size (final w) = size s + written (events w)
  /\ (result w = Returns tt ->
      exists new, staged (final w) = Some (x :: d ++ new)
                  /\ len (x :: d ++ new) = written (events w)).
Proof.
  cbn zeta. rewrite staging_run.
  destruct (next_fault s); [cbn; split; [lia | discriminate]|].
  destruct (tmp_dir s); [|cbn; split; [lia | discriminate]].
  cbn zeta. destruct (next_fault _); [cbn; split; [lia | discriminate]|].
  match goal with |- context [copy_loop rest ?s2] =>
    destruct (copy_loop_written rest s2 (old := x :: d) eq_refl) as (H1 & new & H2 & H3);
    set (c := copy_loop rest s2) in *
  end.
  cbn [size set_size set_staged after_call set_file_faults] in H1.
  assert (Hw : forall tail, written tail = 0 ->
            written (OpenWrite :: Write (x :: d) :: events c ++ tail)
            = len (x :: d) + written (events c)).
  { intros tail Ht. cbn [written]. rewrite written_app, Ht. lia. }
  destruct (result c) as [[]|e|]; cbn [result final events];
    rewrite ?Hw by reflexivity;
    try (rewrite <- (app_nil_r (events c)), Hw by reflexivity);
    (split; [lia|]); try discriminate.
  intros _. exists new. split; [exact H2|].
  change (x :: d ++ new) with ((x :: d) ++ new). rewrite len_app. lia.
Qed.

Lemma upload_attempt_written conn s :
  let a := upload_attempt conn s in
  size (final a) = size s + written (events a)
  /\ (result a = Returns Break ->
      exists x d, staged (final a) = Some (x :: d)
                  /\ len (x :: d) = written (events a)).
Proof.
  destruct conn as [|[[|x d]|e] rest].
  - rewrite upload_attempt_probe by reflexivity. cbn. split; [lia | discriminate].
  - rewrite upload_attempt_probe by reflexivity. cbn. split; [lia | discriminate].
  - rewrite upload_attempt_sender. cbn zeta.
    destruct (staging_written x d rest (set_conn_timeout None s)) as (H1 & H2).
    cbn [size set_conn_timeout] in H1.
    set (w := staging (x :: d) rest (set_conn_timeout None s)) in *.
    assert (Hw : forall tail, written tail = 0 ->
              written (sender_start (x :: d) ++ events w ++ tail) = written (events w)).
    { intros tail Ht. cbn [sender_start app written]. rewrite written_app, Ht. lia. }
    destruct (result w) as [[]|e|];
      [ | destruct (is_Exception e) | ]; cbn [result final events];
      rewrite ?Hw by reflexivity;
      try (rewrite <- (app_nil_r (events w)), Hw by reflexivity);
      (split; [lia|]); try discriminate.
    intros _. destruct (H2 eq_refl) as (new & E1 & E2).
    exists x, (d ++ new). split; [exact E1 | exact E2].
  - rewrite upload_attempt_first_raises.
    destruct e; cbn; (split; [lia | discriminate]).
Qed.

Lemma accept_loop_written ups : forall s,
  let r := accept_loop ups s in
  size (final r) = size s + written (events r)
  /\ (result r = Returns tt ->
      exists x d, staged (final r) = Some (x :: d)
                  /\ len (x :: d) <= written (events r)).
Proof.
  induction ups as [|[conn|e] rest IH]; intros s.
  - cbn. split; [lia | discriminate].
  - rewrite accept_loop_accepted.
    destruct (upload_attempt_written conn (set_conn_timeout None s)) as (H1 & H2).
    cbn [size set_conn_timeout] in H1.
    destruct (result (upload_attempt conn (set_conn_timeout None s))) as [[]|e|].
    + cbn [result final events written]. split; [exact H1|].
      intros _. destruct (H2 eq_refl) as (x & d & Hs & Hl).
      exists x, d. split; [exact Hs | lia].
    + destruct (IH (final (upload_attempt conn (set_conn_timeout None s))))
        as (I1 & I2).
      cbn [result final events written]. rewrite written_app. split; [lia|].
      intros Hr. destruct (I2 Hr) as (x & d & Hs & Hl).
      exists x, d. split; [exact Hs|].
      pose proof (written_nonneg (events (upload_attempt conn (set_conn_timeout None s)))).
      lia.
    + cbn [result final events written]. split; [exact H1 | discriminate].
    + cbn [result final events written]. split; [exact H1 | discriminate].
  - cbn. split; [lia | discriminate].
Qed.

Lemma accept_upload_written port bind_error ups s n :
  let r := accept_upload port bind_error ups s in
  result r = Returns n ->
  n = written (events r)
  /\ exists x d, staged (final r) = Some (x :: d) /\ len (x :: d) <= n.
Proof.
  cbn zeta. rewrite accept_upload_run.
  destruct bind_error as [e|]; [discriminate|]. cbn zeta.
  destruct (accept_loop_written ups (set_size 0 s)) as (H1 & H2).
  cbn [size set_size] in H1.
  destruct (result (accept_loop ups (set_size 0 s))) as [[]|e|]; try discriminate.
  cbn [result final events written]. intros Hn. injection Hn as <-.
  rewrite written_app. cbn [written].
  destruct (H2 eq_refl) as (x & d & Hs & Hl).
  split; [lia|]. exists x, d. split; [exact Hs | lia].
Qed.

(** X1.  The size [accept_upload] returns is the number of bytes written to
    the staged file over all connections, the attempts that broke
    included: it is at least the length of the staged file, and can be
    more. *)
Theorem returned_size_counts_every_write port bind_error ups s n :
  let r := accept_upload port bind_error ups s in
  result r = Returns n ->
  n = written (events r)
  /\ len (staged_content (final r)) <= n.
Proof.
  intros r Hr.
  destruct (accept_upload_written port bind_error ups s Hr) as (Hn & x & d & Hs & Hl).
  split; [exact Hn|]. unfold staged_content. fold r in Hs. rewrite Hs. exact Hl.
Qed.

Lemma returned_size_counts_every_write_witness :
  let r := accept_upload 9000 None example_uploads (staging_state initial_state) in
  result r = Returns 7
  /\ 7 = written (events r)
  /\ len (staged_content (final r)) = 5.
Proof.
  cbv zeta.
  assert (Hr : result (accept_upload 9000 None example_uploads
                         (staging_state initial_state)) = Returns 7)
    by (vm_compute; reflexivity).
  split; [exact Hr|].
  split; [exact (proj1 (returned_size_counts_every_write _ _ _ _ Hr))|].
  vm_compute. reflexivity.
Defined.

(** X2.  The upload phase never stages an empty file: a connection that
    closes without sending counts as a probe, so when [accept_upload]
    returns the staged file holds at least one byte and the size returned
    is positive. *)
Theorem upload_never_stages_an_empty_file port bind_error ups s n :
  let r := accept_upload port bind_error ups s in
  result r = Returns n ->
  (exists x d, staged (final r) = Some (x :: d)) /\ 0 < n.
Proof.
  intros r Hr.
  destruct (accept_upload_written port bind_error ups s Hr) as (_ & x & d & Hs & Hl).
  split; [exists x, d; exact Hs|].
  pose proof (len_cons_pos x d). lia.
Qed.

Lemma upload_never_stages_an_empty_file_witness :
  let ups := [Accepted [Chunk []]; Accepted [Chunk (b "x"); Chunk []]] in
  let r := accept_upload 9000 None ups (staging_state initial_state) in
  result r = Returns 1 /\ 0 < 1.
Proof.
  cbv zeta.
  assert (Hr : result (accept_upload 9000 None
                         [Accepted [Chunk []]; Accepted [Chunk (b "x"); Chunk []]]
                         (staging_state initial_state)) = Returns 1)
    by (vm_compute; reflexivity).
  split; [exact Hr|].
  exact (proj2 (upload_never_stages_an_empty_file _ _ _ _ Hr)).
Defined.

(** ** One connection and one file handle at a time *)

Lemma connections_neutral body : forall open rest,
  Forall conn_neutral body ->
  connections_sequential open (body ++ rest) = connections_sequential open rest.
Proof.
  induction body as [|e body IH]; intros open rest H; [reflexivity|].
  inversion H as [|? ? He Hb]; subst. cbn [app].
  destruct e; cbn in He; try contradiction; cbn; apply IH; exact Hb.
Qed.

Lemma file_neutral_skip body : forall open rest,
  Forall file_neutral body ->
  file_sequential open (body ++ rest) = file_sequential open rest.
Proof.
  induction body as [|e body IH]; intros open rest H; [reflexivity|].
  inversion H as [|? ? He Hb]; subst. cbn [app].
  destruct e; cbn in He; try contradiction; cbn; apply IH; exact Hb.
Qed.

Lemma file_use_skip body : forall rest,
  Forall file_use body ->
  file_sequential true (body ++ rest) = file_sequential true rest.
Proof.
  induction body as [|e body IH]; intros rest H; [reflexivity|].
  inversion H as [|? ? He Hb]; subst. cbn [app].
  destruct e; cbn in He; try contradiction; cbn; apply IH; exact Hb.
Qed.

Lemma copy_event_file_use t e : copy_event t e -> file_use e.
Proof. destruct e; simpl; auto. Qed.

Lemma send_event_conn_neutral e : send_event e -> conn_neutral e.
Proof. destruct e; simpl; auto. Qed.

Lemma send_event_file_use e : send_event e -> file_use e.
Proof. destruct e; simpl; auto. Qed.

Lemma stage_event_conn_neutral e : stage_event e -> conn_neutral e.
Proof. destruct e; simpl; auto. Qed.

(** The [with] block closes the file it opened on every way out; the file
    stays open only when the block never ends. *)
Lemma staging_handles first_chunk tl s :
  let w := staging first_chunk tl s in
  forall rest,
    file_sequential false (events w ++ rest) =
    file_sequential (match result w with Hangs => true | _ => false end) rest.
Proof.
  cbn zeta. rewrite staging_run.
  destruct (next_fault s); [reflexivity|].
  destruct (tmp_dir s); [|reflexivity].
  cbn zeta. destruct (next_fault _); [reflexivity|].
  match goal with |- context [copy_loop tl ?s2] =>
    destruct (copy_loop_spec tl s2 (old := first_chunk) eq_refl) as (H1 & _);
    set (c := copy_loop tl s2) in *
  end.
  assert (Hu : Forall file_use (events c))
    by (eapply Forall_impl; [apply copy_event_file_use | exact H1]).
  destruct (result c) as [[]|e|]; cbn [result events]; intros rest;
    cbn [app file_sequential];
    rewrite <- ?app_assoc, ?(file_use_skip _ Hu); reflexivity.
Qed.

(** An upload attempt closes its connection when it returns, and leaves it
    open when a KeyboardInterrupt goes through or when it blocks; the file
    it opened is closed in every case but the last. *)
Lemma upload_attempt_handles conn s :
  let a := upload_attempt conn s in
  (forall rest,
     connections_sequential true (events a ++ rest) =
     connections_sequential (match result a with Returns _ => false | _ => true end) rest)
  /\ (forall rest,
        file_sequential false (events a ++ rest) =
        file_sequential (match result a with Hangs => true | _ => false end) rest).
Proof.
  destruct conn as [|[[|x d]|e] tl].
  - rewrite upload_attempt_probe by reflexivity. cbn. split; auto.
  - rewrite upload_attempt_probe by reflexivity. cbn. split; auto.
  - rewrite upload_attempt_sender. cbn zeta.
    destruct (staging_spec (x :: d) tl (set_conn_timeout None s) eq_refl) as (H1 & _).
    pose proof (staging_handles (x :: d) tl (set_conn_timeout None s)) as Hf.
    cbn zeta in Hf.
    set (w := staging (x :: d) tl (set_conn_timeout None s)) in *.
    assert (Hn : Forall conn_neutral (events w))
      by (eapply Forall_impl; [apply stage_event_conn_neutral | exact H1]).
    destruct (result w) as [[]|e|];
      [ | destruct (is_Exception e) | ]; cbn [result events]; split; intros rest;
      cbn [sender_start app connections_sequential file_sequential];
      rewrite <- ?app_assoc, ?(connections_neutral _ _ Hn), ?Hf;
      cbn; auto.
  - rewrite upload_attempt_first_raises.
    destruct e; cbn; split; auto.
Qed.

Lemma accept_loop_handles ups : forall s,
  let r := accept_loop ups s in
  exists oc fo,
    (forall rest,
       connections_sequential false (events r ++ rest) = connections_sequential oc rest)
    /\ (forall rest, file_sequential false (events r ++ rest) = file_sequential fo rest)
    /\ (result r = Returns tt -> oc = false)
    /\ (result r <> Hangs -> fo = false).
Proof.
  induction ups as [|[conn|e] rest' IH]; intros s.
  - exists false, false. cbn. auto.
  - rewrite accept_loop_accepted.
    destruct (upload_attempt_handles conn (set_conn_timeout None s)) as (Hc & Hf).
    destruct (result (upload_attempt conn (set_conn_timeout None s))) as [[]|e|].
    + exists false, false. cbn [result events].
      split; [|split; [|split]].
      * intros rest. cbn [app connections_sequential]. apply Hc.
      * intros rest. cbn [app file_sequential]. apply Hf.
      * reflexivity.
      * reflexivity.
    + destruct (IH (final (upload_attempt conn (set_conn_timeout None s))))
        as (oc & fo & I1 & I2 & I3 & I4).
      exists oc, fo. cbn [result events].
      split; [|split; [|split]].
      * intros rest. cbn [app connections_sequential]. rewrite <- app_assoc, Hc. apply I1.
      * intros rest. cbn [app file_sequential]. rewrite <- app_assoc, Hf. apply I2.
      * exact I3.
      * exact I4.
    + exists true, false. cbn [result events].
      split; [|split; [|split]].
      * intros rest. cbn [app connections_sequential]. apply Hc.
      * intros rest. cbn [app file_sequential]. apply Hf.
      * discriminate.
      * reflexivity.
    + exists true, true. cbn [result events].
      split; [|split; [|split]].
      * intros rest. cbn [app connections_sequential]. apply Hc.
      * intros rest. cbn [app file_sequential]. apply Hf.
      * discriminate.
      * congruence.
  - exists false, false. cbn. auto.
Qed.

Lemma accept_upload_handles port bind_error ups s :
  let r := accept_upload port bind_error ups s in
  exists oc fo,
    (forall rest,
       connections_sequential false (events r ++ rest) = connections_sequential oc rest)
    /\ (forall rest, file_sequential false (events r ++ rest) = file_sequential fo rest)
    /\ (forall n, result r = Returns n -> oc = false)
    /\ (result r <> Hangs -> fo = false).
Proof.
  cbn zeta. rewrite accept_upload_run.
  destruct bind_error as [e|]; [exists false, false; cbn; auto|]. cbn zeta.
  destruct (accept_loop_handles ups (set_size 0 s)) as (oc & fo & I1 & I2 & I3 & I4).
  exists oc, fo.
  destruct (result (accept_loop ups (set_size 0 s))) as [[]|e|]; cbn [result events];
    (split; [|split; [|split]]);
    try (intros rest; cbn [app connections_sequential file_sequential];
         rewrite <- ?app_assoc, ?I1, ?I2; reflexivity);
    try (intros; apply I3; reflexivity); try (intros; apply I4; congruence);
    try discriminate; congruence.
Qed.

Lemma serve_download_handles port bind_error dn s :
  let r := serve_download port bind_error dn s in
  exists oc fo,
    (forall rest,
       connections_sequential false (events r ++ rest) = connections_sequential oc rest)
    /\ (forall rest, file_sequential false (events r ++ rest) = file_sequential fo rest)
    /\ (result r <> Hangs -> oc = false)
    /\ (result r <> Hangs -> fo = false).
Proof.
  cbn zeta. rewrite serve_download_run.
  destruct bind_error as [e|]; [exists false, false; cbn; auto|].
  destruct dn as [[conn|e]|]; [|exists false, false; cbn; auto..].
  destruct (staged s) as [content|]; [|exists false, false; cbn; auto].
  cbn zeta.
  destruct (send_loop_spec (chunks (Z.to_nat CHUNK_SIZE) content) (sends conn) s)
    as (_ & H2 & H3 & _).
  set (l := send_loop (chunks (Z.to_nat CHUNK_SIZE) content) (sends conn) s) in *.
  assert (Hn : Forall conn_neutral (events l))
    by (eapply Forall_impl; [apply send_event_conn_neutral | exact H2]).
  assert (Hu : Forall file_use (events l))
    by (eapply Forall_impl; [apply send_event_file_use | exact H2]).
  exists false, false.
  destruct (result l) as [[]|e|]; [| |congruence]; cbn [result events];
    (split; [|split]); auto; intros rest;
    cbn [app connections_sequential file_sequential];
    rewrite <- ?app_assoc, ?(connections_neutral _ _ Hn), ?(file_use_skip _ Hu);
    reflexivity.
Qed.

Lemma connections_sequential_silent evs : forall open,
  connections_sequential open (silent evs) = connections_sequential open evs.
Proof.
  unfold silent. induction evs as [|e evs IH]; intros open; [reflexivity|].
  destruct e; cbn; try destruct open; rewrite ?IH; reflexivity.
Qed.

Lemma file_sequential_silent evs : forall open,
  file_sequential open (silent evs) = file_sequential open evs.
Proof.
  unfold silent. induction evs as [|e evs IH]; intros open; [reflexivity|].
  destruct e; cbn; try destruct open; rewrite ?IH; reflexivity.
Qed.

Lemma cleanup_events env s : events (cleanup env s) = [Remove; Rmdir].
Proof. destruct (cleanup_run env s) as (s' & -> & _). reflexivity. Qed.

(** The two disciplines over a whole run of [main_silent]. *)
Lemma main_silent_handles args env s :
  let r := main_silent args env s in
  (exists oc, connections_sequential false (events r) = Some oc
              /\ (result r = Returns tt -> oc = false))
  /\ (exists fo, file_sequential false (events r) = Some fo
                 /\ (result r <> Hangs -> fo = false)).
Proof.
  cbn zeta. rewrite main_silent_run. cbn zeta.
  destruct (accept_upload_handles (args_port args) (upload_bind_error env) (uploads env)
              (staging_state s)) as (uc & uf & U1 & U2 & U3 & U4).
  destruct (serve_download_handles (args_port args) (download_bind_error env)
              (download env) (final (upload_run args env s)))
    as (dc & df & D1 & D2 & D3 & D4).
  fold (upload_run args env s) in U1, U2, U3, U4.
  fold (download_run args env s) in D1, D2, D3, D4.
  assert (Hnil : forall evs : list event, evs = evs ++ []) by (intros; now rewrite app_nil_r).
  destruct (result (upload_run args env s)) as [n|e|] eqn:Hu.
  - specialize (U3 n eq_refl). specialize (U4 ltac:(discriminate)). subst uc uf.
    destruct (result (download_run args env s)) as [[]|e|] eqn:Hd.
    + specialize (D3 ltac:(discriminate)). specialize (D4 ltac:(discriminate)).
      subst dc df. rewrite cleanup_events. cbn [result events].
      cbn [connections_sequential file_sequential]. rewrite U1, U2, D1, D2. cbn.
      split; exists false; auto.
    + specialize (D3 ltac:(discriminate)). specialize (D4 ltac:(discriminate)).
      subst dc df.
      destruct e; rewrite ?cleanup_events; cbn [result events];
        cbn [connections_sequential file_sequential];
        rewrite ?U1, ?U2, ?D1, ?D2;
        try (rewrite (Hnil (events (download_run args env s))), D1, D2);
        cbn; split; exists false; auto.
    + cbn [result events]. cbn [connections_sequential file_sequential].
      rewrite U1, U2, (Hnil (events (download_run args env s))), D1, D2. cbn.
      split; [exists dc | exists df]; split; auto; try discriminate; congruence.
  - specialize (U4 ltac:(discriminate)). subst uf.
    destruct e; rewrite ?cleanup_events; cbn [result events];
      cbn [connections_sequential file_sequential];
      rewrite ?U1, ?U2;
      try (rewrite (Hnil (events (upload_run args env s))), U1, U2);
      cbn; (split; [exists uc | exists false]); split; auto; discriminate.
  - cbn [result events]. cbn [connections_sequential file_sequential].
    rewrite (Hnil (events (upload_run args env s))), U1, U2. cbn.
    split; [exists uc | exists uf]; split; auto; try discriminate; congruence.
Qed.

(** X3.  The program holds one connection at a time: in every run of
    [main] no connection is accepted while another one is open, none is
    closed twice, and when [main] returns every connection it accepted has
    been closed. *)
Theorem one_connection_at_a_time args env s :
  let r := main args env s in
  exists open_at_end,
    connections_sequential false (events r) = Some open_at_end
    /\ (result r = Returns tt -> open_at_end = false).
Proof.
  cbn zeta.
  destruct (main_observed args env s) as (Hr & _ & He).
  destruct (main_silent_handles args env s) as ((oc & H1 & H2) & _).
  exists oc. rewrite <- connections_sequential_silent, He,
    connections_sequential_silent, Hr.
  split; assumption.
Qed.

(** X4.  The staged file is handled through one handle at a time: in every
    run of [main] it is written and read only between an [open] and the
    end of its with-block, it is not opened again while open, [os.remove]
    is called only while it is closed, and whenever the program terminates,
    by return or by any exception, the file has been closed. *)
Theorem staged_file_closed_before_exit args env s :
  let r := main args env s in
  exists open_at_end,
    file_sequential false (events r) = Some open_at_end
    /\ (result r <> Hangs -> open_at_end = false).
Proof.
  cbn zeta.
  destruct (main_observed args env s) as (Hr & _ & He).
  destruct (main_silent_handles args env s) as (_ & (fo & H1 & H2)).
  exists fo. rewrite <- file_sequential_silent, He, file_sequential_silent, Hr.
  split; assumption.
Qed.

(** ** The download phase *)

Lemma is_prefix_nil l : is_prefix [] l.
Proof. exists l. reflexivity. Qed.

Lemma is_prefix_refl l : is_prefix l l.
Proof. exists []. now rewrite app_nil_r. Qed.

Lemma is_prefix_app a l1 l2 : is_prefix l1 l2 -> is_prefix (a ++ l1) (a ++ l2).
Proof. intros [rest ->]. exists rest. now rewrite app_assoc. Qed.

Lemma send_loop_prefix reads : forall script s,
  is_prefix (sent (events (send_loop reads script s))) (List.concat reads).
Proof.
  induction reads as [|chunk reads IH]; intros script s; cbn [send_loop].
  - run_monad. apply is_prefix_nil.
  - specialize (IH (List.tl script) s).
    destruct (hd SendOk script) as [|e n]; run_monad;
      destruct (send_loop reads (List.tl script) s) as [o f ev]; cbn in *.
    + apply is_prefix_app. exact IH.
    + rewrite app_nil_r. exists (skipn n chunk ++ List.concat reads).
      rewrite app_assoc, firstn_skipn. reflexivity.
Qed.

(** X5.  [serve_download] only reads: in every run it leaves the staged
    file, the directory and the rest of the state as they were, and the
    bytes it has sent are a prefix of the staged file (all of it when it
    returns).  When the staged file is missing nothing is sent and the
    call does not return normally. *)
Theorem download_sends_a_prefix_and_keeps_the_file port bind_error dn s :
  let r := serve_download port bind_error dn s in
  final r = s
  /\ is_prefix (sent (events r)) (staged_content s)
  /\ (result r = Returns tt -> sent (events r) = staged_content s)
  /\ (staged s = None -> sent (events r) = [] /\ result r <> Returns tt).
Proof.
  cbn zeta. rewrite serve_download_run. unfold staged_content.
  destruct bind_error as [e|].
  { cbn. repeat split; try discriminate; try apply is_prefix_nil. }
  destruct dn as [[conn|e]|].
  2,3: cbn; repeat split; try discriminate; apply is_prefix_nil.
  destruct (staged s) as [content|].
  2: cbn; repeat split; try discriminate; apply is_prefix_nil.
  cbn zeta.
  destruct (send_loop_spec (chunks (Z.to_nat CHUNK_SIZE) content) (sends conn) s)
    as (H1 & _ & H3 & H4).
  pose proof (send_loop_prefix (chunks (Z.to_nat CHUNK_SIZE) content) (sends conn) s)
    as Hp.
  rewrite chunks_concat in Hp, H4 by (unfold CHUNK_SIZE; lia).
  set (l := send_loop (chunks (Z.to_nat CHUNK_SIZE) content) (sends conn) s) in *.
  destruct (result l) as [[]|e|]; [| |congruence]; cbn [result final events sent];
    rewrite sent_app; cbn [sent]; rewrite app_nil_r;
    (split; [exact H1 | split; [exact Hp | split]]);
    try discriminate; try (intros _; apply H4; reflexivity);
    intros; discriminate.
Qed.

(** X6.  Whenever [serve_download] has bound its socket and terminates,
    by return or by any exception, the last thing it did was to close the
    listening socket; and when it had accepted a connection, that
    connection was closed just before. *)
Theorem download_closes_connection_and_listener port dn s :
  let r := serve_download port None dn s in
  result r <> Hangs ->
  exists before,
    events r = before ++ [CloseListener port]
    /\ (In Accept before -> exists before', before = before' ++ [CloseConn]).
Proof.
  cbn zeta. rewrite serve_download_run.
  destruct dn as [[conn|e]|].
  - destruct (staged s) as [content|].
    + cbn zeta.
      destruct (result (send_loop _ _ s)) as [[]|e|]; cbn [result events]; intros Hr;
        [ | |congruence].
      * eexists (Listen port :: Accept :: OpenRead :: _ ++ [CloseFile; Shutdown; CloseConn]).
        split; [cbn; rewrite <- app_assoc; reflexivity|].
        intros _. eexists (Listen port :: Accept :: OpenRead :: _ ++ [CloseFile; Shutdown]).
        cbn. rewrite <- app_assoc. reflexivity.
      * eexists (Listen port :: Accept :: OpenRead :: _ ++ [CloseFile; CloseConn]).
        split; [cbn; rewrite <- app_assoc; reflexivity|].
        intros _. eexists (Listen port :: Accept :: OpenRead :: _ ++ [CloseFile]).
        cbn. rewrite <- app_assoc. reflexivity.
    + intros _. exists [Listen port; Accept; CloseConn]. split; [reflexivity|].
      intros _. exists [Listen port; Accept]. reflexivity.
  - intros _. exists [Listen port]. split; [reflexivity|].
    cbn. intros [H|[]]; discriminate.
  - cbn. congruence.
Qed.

Lemma download_closes_connection_and_listener_witness :
  let s := set_staged (Some (b "world")) initial_state in
  let r := serve_download 9000 None (Some (Accepted resetting_client)) s in
  result r = Raises OSError
  /\ exists before, events r = before ++ [CloseListener 9000].
Proof.
  cbv zeta.
  assert (Hr : result (serve_download 9000 None (Some (Accepted resetting_client))
                         (set_staged (Some (b "world")) initial_state)) = Raises OSError)
    by (vm_compute; reflexivity).
  split; [exact Hr|].
  destruct (download_closes_connection_and_listener 9000
              (Some (Accepted resetting_client))
              (set_staged (Some (b "world")) initial_state)) as (before & H & _).
  - rewrite Hr. discriminate.
  - exists before. exact H.
Defined.

Lemma chunks_fuel_bounds n : (0 < n)%nat -> forall fuel data,
  Forall (fun c => c <> [] /\ (List.length c <= n)%nat) (chunks_fuel fuel n data).
Proof.
  intros Hn. induction fuel as [|fuel IH]; intros data; [constructor|].
  destruct data as [|x data]; [constructor|].
  cbn [chunks_fuel]. constructor; [|apply IH].
  split.
  - destruct n as [|n]; [lia|]. cbn. discriminate.
  - apply firstn_le_length.
Qed.

Lemma chunks_fuel_short n : forall fuel data,
  data <> [] -> (List.length data <= n)%nat -> (0 < fuel)%nat ->
  chunks_fuel fuel n data = [data].
Proof.
  intros fuel data Hne Hlen Hf.
  destruct fuel as [|fuel]; [lia|]. destruct data as [|x data]; [congruence|].
  cbn [chunks_fuel].
  rewrite firstn_all2 by exact Hlen. rewrite skipn_all2 by exact Hlen.
  destruct fuel; reflexivity.
Qed.

Lemma send_calls_app e1 e2 : send_calls (e1 ++ e2) = send_calls e1 ++ send_calls e2.
Proof.
  induction e1 as [|e e1 IH]; [reflexivity|].
  destruct e; cbn; rewrite ?IH; reflexivity.
Qed.

Lemma read_calls_app e1 e2 : read_calls (e1 ++ e2) = read_calls e1 ++ read_calls e2.
Proof.
  induction e1 as [|e e1 IH]; [reflexivity|].
  destruct e; cbn; rewrite ?IH; reflexivity.
Qed.

(** The calls of the download loop: what is read is a chunk of the file,
    what is sent is a chunk or the part of it that went out; when the loop
    returns every chunk was read and sent whole, and the last [read]
    returned [b""]. *)
Lemma send_loop_calls (n : nat) reads : forall script s,
  Forall (fun c => (List.length c <= n)%nat) reads ->
  let l := send_loop reads script s in
  Forall (fun c => (List.length c <= n)%nat) (send_calls (events l))
  /\ Forall (fun c => (List.length c <= n)%nat) (read_calls (events l))
  /\ (result l = Returns tt ->
      send_calls (events l) = reads /\ read_calls (events l) = reads ++ [[]]).
Proof.
  induction reads as [|chunk reads IH]; intros script s Hb; cbn [send_loop].
  - run_monad. cbn. repeat split; auto. repeat constructor. cbn. lia.
  - inversion Hb as [|? ? Hc Hr]; subst.
    specialize (IH (List.tl script) s Hr). cbn zeta in IH.
    destruct (hd SendOk script) as [|e k]; run_monad;
      destruct (send_loop reads (List.tl script) s) as [o f ev];
      cbn in *; destruct IH as (I1 & I2 & I3).
    + split; [constructor; auto | split; [constructor; auto|]].
      intros Ho. destruct (I3 Ho) as (-> & ->). split; reflexivity.
    + split; [|split; [repeat constructor; auto | discriminate]].
      repeat constructor. rewrite length_firstn. lia.
Qed.

(** X7.  The download loop moves the file in blocks.  In every run of
    [serve_download], however it ends, no [f.read] returns and no
    [sendall] puts on the connection more than [CHUNK_SIZE] bytes.  When
    [serve_download] returns, the calls of [sendall] carried, in order,
    the blocks of [CHUNK_SIZE] bytes of the staged file: each is non-empty,
    put end to end they are the file, the reads are these blocks followed
    by one empty read, an empty file gives no [sendall], and a non-empty
    file of at most [CHUNK_SIZE] bytes goes out in one [sendall]. *)
Theorem download_chunks_are_bounded port bind_error dn s :
  let r := serve_download port bind_error dn s in
  let calls := send_calls (events r) in
  Forall (fun c => len c <= CHUNK_SIZE) calls
  /\ Forall (fun c => len c <= CHUNK_SIZE) (read_calls (events r))
  /\ (result r = Returns tt ->
      calls = chunks (Z.to_nat CHUNK_SIZE) (staged_content s)
      /\ read_calls (events r) = calls ++ [[]]
      /\ Forall (fun c => c <> []) calls
      /\ List.concat calls = staged_content s
      /\ (staged_content s = [] -> calls = [])
      /\ (staged_content s <> [] -> len (staged_content s) <= CHUNK_SIZE ->
          calls = [staged_content s])).
Proof.
  cbn zeta. rewrite serve_download_run. unfold staged_content.
  assert (Hn : (0 < Z.to_nat CHUNK_SIZE)%nat) by (unfold CHUNK_SIZE; lia).
  destruct bind_error as [e|].
  { cbn. repeat split; try constructor; discriminate. }
  destruct dn as [[conn|e]|].
  2,3: cbn; repeat split; try constructor; discriminate.
  destruct (staged s) as [content|].
  2: cbn; repeat split; try constructor; discriminate.
  cbn zeta.
  pose proof (chunks_fuel_bounds Hn (List.length content) content) as Hb.
  fold (chunks (Z.to_nat CHUNK_SIZE) content) in Hb.
  assert (Hle : Forall (fun c => (List.length c <= Z.to_nat CHUNK_SIZE)%nat)
                  (chunks (Z.to_nat CHUNK_SIZE) content))
    by (eapply Forall_impl; [|exact Hb]; intros c [_ Hl]; exact Hl).
  destruct (send_loop_calls (sends conn) s Hle) as (H1 & H2 & H3).
  assert (Hz : forall l, Forall (fun c => (List.length c <= Z.to_nat CHUNK_SIZE)%nat) l ->
                         Forall (fun c => len c <= CHUNK_SIZE) l).
  { intros l. apply Forall_impl. intros c Hc. unfold len, CHUNK_SIZE in *. lia. }
  apply Hz in H1, H2.
  set (l := send_loop (chunks (Z.to_nat CHUNK_SIZE) content) (sends conn) s) in *.
  destruct (result l) as [[]|e|]; cbn [result events send_calls read_calls];
    rewrite ?send_calls_app, ?read_calls_app; cbn [send_calls read_calls];
    rewrite ?app_nil_r;
    (split; [exact H1 | split; [exact H2|]]); try discriminate.
  intros _. destruct (H3 eq_refl) as (E1 & E2). rewrite E1, E2.
  split; [reflexivity | split; [reflexivity | split; [|split; [|split]]]].
  - eapply Forall_impl; [|exact Hb]. intros c [Hc _]. exact Hc.
  - apply chunks_concat. exact Hn.
  - intros ->. reflexivity.
  - intros Hne Hl. apply chunks_fuel_short; auto.
    + unfold len, CHUNK_SIZE in *. lia.
    + destruct content; [congruence | cbn; lia].
Qed.

(** X8.  Whenever [accept_upload] has bound its socket and terminates, by
    return, by an error of [accept] or by KeyboardInterrupt, its events
    start with the creation of the listening socket and end with its
    close: the [finally] clause runs on every way out. *)
Theorem upload_closes_listener port ups s :
  let r := accept_upload port None ups s in
  result r <> Hangs ->
  exists between, events r = Listen port :: between ++ [CloseListener port].
Proof.
  cbn zeta. rewrite accept_upload_run. cbn zeta.
  destruct (result (accept_loop ups (set_size 0 s))) as [[]|e|]; cbn [result events];
    intros Hr; try congruence; eexists; reflexivity.
Qed.

Lemma upload_closes_listener_witness :
  let ups := [Accepted [Chunk (b "he"); RecvRaises KeyboardInterrupt]] in
  let r := accept_upload 9000 None ups (staging_state initial_state) in
  result r = Raises KeyboardInterrupt
  /\ exists between, events r = Listen 9000 :: between ++ [CloseListener 9000].
Proof.
  cbv zeta.
  assert (Hr : result (accept_upload 9000 None
                         [Accepted [Chunk (b "he"); RecvRaises KeyboardInterrupt]]
                         (staging_state initial_state)) = Raises KeyboardInterrupt)
    by (vm_compute; reflexivity).
  split; [exact Hr|].
  apply (upload_closes_listener 9000
           [Accepted [Chunk (b "he"); RecvRaises KeyboardInterrupt]] (staging_state initial_state)).
  rewrite Hr. discriminate.
Defined.

Lemma download_chunks_are_bounded_witness :
  let s := set_staged (Some (b "world")) initial_state in
  let r := serve_download 9000 None (Some (Accepted example_client)) s in
  result r = Returns tt /\ send_calls (events r) = [b "world"].
Proof.
  cbv zeta.
  assert (Hr : result (serve_download 9000 None (Some (Accepted example_client))
                         (set_staged (Some (b "world")) initial_state)) = Returns tt)
    by (vm_compute; reflexivity).
  split; [exact Hr|].
  destruct (download_chunks_are_bounded 9000 None (Some (Accepted example_client))
              (set_staged (Some (b "world")) initial_state)) as (_ & _ & H).
  destruct (H Hr) as (_ & _ & _ & _ & _ & H6).
  apply H6; vm_compute; discriminate.
Defined.

(** ** The program as a whole *)

(** X9.  How [main] ends and what it does, by how its two phases end.  It
    returns when the upload returned and the download returned or was
    interrupted; it exits with status 130 when the upload was interrupted;
    any other exception of a phase goes through [main] as it is; it blocks
    when a phase blocks.  But for printing, what a run does is: make the
    directory, run the upload phase, then, only when the upload phase
    returned, run the download phase from the state the upload left; and
    [os.remove] then [os.rmdir] at the end of the three paths that clean
    up.  When the upload phase did not return, no call of the download
    phase is made. *)
Theorem main_outcome args env s :
  let r := main args env s in
  let up := upload_run args env s in
  let down := serve_download (args_port args) (download_bind_error env) (download env)
                (final up) in
  result r =
  match result up with
  | Returns _ =>
      match result down with
      | Returns _ | Raises KeyboardInterrupt => Returns tt
      | Raises e => Raises e
      | Hangs => Hangs
      end
  | Raises KeyboardInterrupt => Raises (SystemExit 130)
  | Raises e => Raises e
  | Hangs => Hangs
  end
  /\ silent (events r) =
     Mkdtemp :: events up ++
     match result up with
     | Returns _ =>
         events down ++
         match result down with
         | Returns _ | Raises KeyboardInterrupt => [Remove; Rmdir]
         | _ => []
         end
     | Raises KeyboardInterrupt => [Remove; Rmdir]
     | _ => []
     end.
Proof.
  cbn zeta.
  destruct (main_observed args env s) as (-> & _ & ->).
  rewrite main_silent_run. cbn zeta.
  destruct (accept_upload_events (args_port args) (upload_bind_error env) (uploads env)
              (staging_state s)) as (Hup & _).
  destruct (serve_download_events (args_port args) (download_bind_error env) (download env)
              (final (upload_run args env s))) as (Hdown & _).
  fold (upload_run args env s) in Hup.
  change (serve_download (args_port args) (download_bind_error env) (download env)
            (final (upload_run args env s))) with (download_run args env s) in *.
  assert (Hsil : forall evs tail, Forall phase_event evs -> silent tail = tail ->
            silent (Mkdtemp :: evs ++ tail) = Mkdtemp :: evs ++ tail).
  { intros evs tail Hevs Ht.
    change (Mkdtemp :: evs ++ tail) with ((Mkdtemp :: evs) ++ tail).
    rewrite silent_app, Ht. f_equal. cbn. f_equal. apply silent_phase_events. exact Hevs. }
  pose proof (fun tail => Hsil (events (upload_run args env s)) tail Hup) as H1.
  assert (H2 : forall tail, silent tail = tail ->
            silent (Mkdtemp :: events (upload_run args env s)
                      ++ events (download_run args env s) ++ tail)
            = Mkdtemp :: events (upload_run args env s)
                ++ events (download_run args env s) ++ tail).
  { intros tail Ht. rewrite !app_assoc. apply Hsil; [apply Forall_app; auto | exact Ht]. }
  pose proof (H1 [] eq_refl) as H1n. pose proof (H2 [] eq_refl) as H2n.
  rewrite ?app_nil_r in H1n, H2n.
  destruct (result (upload_run args env s)) as [n|e|];
    [destruct (result (download_run args env s)) as [[]|e|]|..];
    try destruct e; cbn zeta; rewrite ?cleanup_events; cbn [result events];
    (split; [reflexivity|]); rewrite ?app_nil_r;
    first [exact (H2 _ eq_refl) | exact H2n | exact (H1 _ eq_refl) | exact H1n].
Qed.

Lemma sent_upload_events evs : Forall upload_event evs -> sent evs = [].
Proof.
  induction 1 as [|e evs He _ IH]; [reflexivity|].
  destruct e; cbn in He; try contradiction; exact IH.
Qed.

Lemma accept_upload_sends_nothing port bind_error ups s :
  sent (events (accept_upload port bind_error ups s)) = [].
Proof.
  rewrite accept_upload_run. destruct bind_error as [e|]; [reflexivity|]. cbn zeta.
  destruct (accept_loop_spec ups (set_size 0 s)) as (H1 & _ & _).
  apply sent_upload_events in H1.
  destruct (result (accept_loop ups (set_size 0 s))) as [[]|e|]; cbn [events sent];
    rewrite ?sent_app, H1; reflexivity.
Qed.

Lemma serve_download_prefix port bind_error dn s :
  let r := serve_download port bind_error dn s in
  is_prefix (sent (events r)) (staged_content s)
  /\ (result r = Returns tt -> sent (events r) = staged_content s).
Proof.
  cbn zeta. rewrite serve_download_run. unfold staged_content.
  destruct bind_error as [e|].
  { cbn. split; [apply is_prefix_nil | discriminate]. }
  destruct dn as [[conn|e]|].
  2,3: cbn; split; [apply is_prefix_nil | discriminate].
  destruct (staged s) as [content|].
  2: cbn; split; [apply is_prefix_nil | discriminate].
  cbn zeta.
  destruct (send_loop_spec (chunks (Z.to_nat CHUNK_SIZE) content) (sends conn) s)
    as (_ & _ & H3 & H4).
  pose proof (send_loop_prefix (chunks (Z.to_nat CHUNK_SIZE) content) (sends conn) s)
    as Hp.
  rewrite chunks_concat in Hp, H4 by (unfold CHUNK_SIZE; lia).
  set (l := send_loop (chunks (Z.to_nat CHUNK_SIZE) content) (sends conn) s) in *.
  destruct (result l) as [[]|e|]; [| |congruence]; cbn [result events sent];
    rewrite sent_app; cbn [sent]; rewrite app_nil_r;
    (split; [exact Hp|]); try discriminate.
  intros _. apply H4. reflexivity.
Qed.

(** X10.  The download client never gets a byte the sender did not send:
    in every run of [main] the bytes sent are a prefix of the bytes
    received from the upload connection accepted last, and they are all of
    them when the download phase returns.  Nothing is sent unless the
    upload phase returned. *)
Theorem main_sends_only_uploaded_bytes args env s :
  let r := main args env s in
  let uploaded := upload_received [] (events (upload_run args env s)) in
  is_prefix (sent (events r)) uploaded
  /\ (listed_path args env s = Some DownloadCompleted -> sent (events r) = uploaded)
  /\ ((forall n, result (upload_run args env s) <> Returns n) -> sent (events r) = []).
Proof.
  cbn zeta.
  destruct (main_observed args env s) as (_ & _ & He).
  rewrite <- sent_silent, He, sent_silent.
  rewrite main_silent_run. cbn zeta. unfold listed_path.
  pose proof (accept_upload_sends_nothing (args_port args) (upload_bind_error env)
                (uploads env) (staging_state s)) as Hu.
  fold (upload_run args env s) in Hu.
  destruct (serve_download_prefix (args_port args)
              (download_bind_error env) (download env) (final (upload_run args env s)))
    as (Dp & Dr).
  fold (download_run args env s) in Dp, Dr.
  destruct (result (upload_run args env s)) as [n|e|] eqn:Hup.
  - pose proof (accept_upload_staged (args_port args) (upload_bind_error env)
                  (uploads env) (staging_state s) (n := n)) as Hst.
    fold (upload_run args env s) in Hst. specialize (Hst Hup).
    unfold staged_content in Dp, Dr. rewrite Hst in Dp, Dr.
    assert (Hs : forall tail, sent tail = [] ->
              sent (Mkdtemp :: events (upload_run args env s)
                      ++ events (download_run args env s) ++ tail)
              = sent (events (download_run args env s))).
    { intros tail Ht. cbn [sent]. rewrite !sent_app, Hu, Ht, app_nil_r. reflexivity. }
    destruct (result (download_run args env s)) as [[]|e|] eqn:Hd.
    + rewrite cleanup_events. cbn [events]. rewrite Hs by reflexivity.
      split; [exact Dp | split; [intros _; apply Dr; reflexivity|]].
      intros H. exfalso. apply (H n). reflexivity.
    + assert (Hsent : sent (events
                (match e with
                 | KeyboardInterrupt =>
                     let c := cleanup env (final (download_run args env s)) in
                     Run (Returns tt) (final c)
                       (Mkdtemp :: events (upload_run args env s)
                          ++ events (download_run args env s) ++ events c)
                 | _ =>
                     Run (Raises e) (final (download_run args env s))
                       (Mkdtemp :: events (upload_run args env s)
                          ++ events (download_run args env s))
                 end)) = sent (events (download_run args env s))).
      { destruct e; cbn zeta; rewrite ?cleanup_events; cbn [events];
          try (apply Hs; reflexivity);
          rewrite <- (app_nil_r (events (download_run args env s))) at 1;
          apply Hs; reflexivity. }
      destruct e; cbn zeta in *; rewrite Hsent;
        (split; [exact Dp | split; [discriminate|]]);
        intros H; exfalso; apply (H n); reflexivity.
    + cbn [events].
      rewrite <- (app_nil_r (events (download_run args env s))) at 1.
      rewrite Hs by reflexivity.
      split; [exact Dp | split; [discriminate|]].
      intros H. exfalso. apply (H n). reflexivity.
  - assert (Hsent : sent (events
              (match e with
               | KeyboardInterrupt =>
                   let c := cleanup env (final (upload_run args env s)) in
                   Run (Raises (SystemExit 130)) (final c)
                     (Mkdtemp :: events (upload_run args env s) ++ events c)
               | _ =>
                   Run (Raises e) (final (upload_run args env s))
                     (Mkdtemp :: events (upload_run args env s))
               end : run unit)) = []).
    { destruct e; cbn zeta; rewrite ?cleanup_events; cbn [events sent];
        rewrite ?sent_app, Hu; reflexivity. }
    destruct e; cbn zeta in *; rewrite Hsent;
      (split; [apply is_prefix_nil | split; [discriminate | reflexivity]]).
  - cbn [events sent]. rewrite Hu.
    split; [apply is_prefix_nil | split; [discriminate | reflexivity]].
Qed.

(** X11.  Of the command line only the port reaches the relay: two runs
    with the same port in which the network and the file system behave
    alike end the same way, in the same state, with the same calls and the
    same bytes, whatever the host, the file name, the password, the width
    of the terminal, the random draws and the clock are.  These show in
    what is printed only. *)
Theorem only_the_port_reaches_the_relay args1 args2 env1 env2 s :
  args_port args1 = args_port args2 ->
  upload_bind_error env1 = upload_bind_error env2 ->
  uploads env1 = uploads env2 ->
  download_bind_error env1 = download_bind_error env2 ->
  download env1 = download env2 ->
  remove_fails env1 = remove_fails env2 ->
  rmdir_fails env1 = rmdir_fails env2 ->
  let r1 := main args1 env1 s in
  let r2 := main args2 env2 s in
  result r1 = result r2
  /\ final r1 = final r2
  /\ silent (events r1) = silent (events r2).
Proof.
  intros Hport Hub Hu Hdb Hd Hrm Hrd. cbn zeta.
  destruct (main_observed args1 env1 s) as (-> & -> & ->).
  destruct (main_observed args2 env2 s) as (-> & -> & ->).
  assert (Hsame : main_silent args1 env1 s = main_silent args2 env2 s).
  { unfold main_silent, cleanup. cbv zeta.
    rewrite Hport, Hub, Hu, Hdb, Hd, Hrm, Hrd. reflexivity. }
  rewrite Hsame. auto.
Qed.

Lemma only_the_port_reaches_the_relay_witness :
  let args2 := {| args_pub := "relay.example.org"; args_filename := "backup.tar";
                  args_password := Some "hunter2"%string; args_port := DEFAULT_PORT |} in
  let env1 := example_env (Some (Accepted example_client)) in
  let env2 := {| columns := None; randbelow := fun _ _ => 0%nat;
                 upload_bind_error := None; uploads := example_uploads;
                 upload_seconds := "12.0"; download_bind_error := None;
                 download := Some (Accepted example_client);
                 remove_fails := false; rmdir_fails := false |} in
  args_port example_args = args_port args2
  /\ silent (events (main example_args env1 initial_state))
     = silent (events (main args2 env2 initial_state)).
Proof.
  cbv zeta. split; [reflexivity|].
  exact (proj2 (proj2 (only_the_port_reaches_the_relay
                         example_args
                         {| args_pub := "relay.example.org"; args_filename := "backup.tar";
                            args_password := Some "hunter2"%string;
                            args_port := DEFAULT_PORT |}
                         (example_env (Some (Accepted example_client)))
                         {| columns := None; randbelow := fun _ _ => 0%nat;
                            upload_bind_error := None; uploads := example_uploads;
                            upload_seconds := "12.0"; download_bind_error := None;
                            download := Some (Accepted example_client);
                            remove_fails := false; rmdir_fails := false |}
                         initial_state
                         eq_refl eq_refl eq_refl eq_refl eq_refl eq_refl eq_refl))).
Defined.

(** X12.  When the port cannot be bound for the upload phase (an
    [Exception] of [listen_once]), [main] ends on that exception right
    after making the directory: it creates no socket, accepts nothing,
    deletes nothing, and the empty temporary directory stays behind. *)
Theorem bind_failure_leaves_the_directory args env s e :
  upload_bind_error env = Some e ->
  is_Exception e = true ->
  let r := main args env s in
  result r = Raises e
  /\ silent (events r) = [Mkdtemp]
  /\ tmp_dir (final r) = true
  /\ staged (final r) = None.
Proof.
  intros Hb He. cbn zeta.
  destruct (main_observed args env s) as (-> & -> & ->).
  rewrite main_silent_run. cbn zeta.
  unfold upload_run. rewrite accept_upload_run, Hb. cbn [result final events].
  destruct e; try discriminate; cbn; auto.
Qed.

Lemma bind_failure_leaves_the_directory_witness :
  let env := {| columns := Some 80; randbelow := fun _ _ => 0%nat;
                upload_bind_error := Some OSError; uploads := example_uploads;
                upload_seconds := "0.0"; download_bind_error := None;
                download := None; remove_fails := false; rmdir_fails := false |} in
  result (main example_args env initial_state) = Raises OSError
  /\ tmp_dir (final (main example_args env initial_state)) = true.
Proof.
  cbv zeta.
  destruct (bind_failure_leaves_the_directory example_args
              {| columns := Some 80; randbelow := fun _ _ => 0%nat;
                 upload_bind_error := Some OSError; uploads := example_uploads;
                 upload_seconds := "0.0"; download_bind_error := None;
                 download := None; remove_fails := false; rmdir_fails := false |}
              initial_state (e := OSError) eq_refl eq_refl) as (H1 & _ & H3 & _).
  split; [exact H1 | exact H3].
Defined.

(** ** What is printed *)

Local Open Scope string_scope.

Lemma str_append_assoc (s1 s2 s3 : string) : (s1 ++ s2) ++ s3 = s1 ++ s2 ++ s3.
Proof. induction s1 as [|c s1 IH]; cbn; [reflexivity | now rewrite IH]. Qed.

Lemma py_len_append (s1 s2 : string) : py_len (s1 ++ s2) = py_len s1 + py_len s2.
Proof.
  induction s1 as [|c s1 IH]; cbn [append py_len]; [lia|].
  destruct ((128 <=? nat_of_ascii c)%nat && (nat_of_ascii c <? 192)%nat); lia.
Qed.

Lemma py_len_nonneg (s : string) : 0 <= py_len s.
Proof.
  induction s as [|c s IH]; cbn [py_len]; [lia|].
  destruct ((128 <=? nat_of_ascii c)%nat && (nat_of_ascii c <? 192)%nat); lia.
Qed.

Lemma py_len_repeat (ch : string) (k : nat) :
  py_len (String.concat "" (repeat ch k)) = py_len ch * Z.of_nat k.
Proof.
  induction k as [|k IH]; [cbn; lia|].
  cbn [repeat String.concat].
  destruct (repeat ch k) as [|x xs] eqn:Hr.
  - destruct k; [|discriminate]. lia.
  - rewrite !py_len_append, IH. cbn [py_len]. lia.
Qed.

Lemma py_len_str_mul (ch : string) (n : Z) :
  py_len (str_mul ch n) = py_len ch * Z.max 0 n.
Proof. unfold str_mul. rewrite py_len_repeat. f_equal. lia. Qed.

Lemma term_width_min columns : 60 <= term_width columns.
Proof. destruct columns; cbn; lia. Qed.

(** X13.  The box is as wide as the terminal: the line of [box_footer] has
    as many characters as [term_width] says, and so has the line of
    [box_title] as long as its text, two blanks and the two corners fit;
    a longer text is printed whole, with no dashes, and sticks out. *)
Theorem box_lines_span_the_terminal columns text color s :
  let w := term_width columns in
  exists top bottom,
    events (box_title columns text color s) = [Print (colored color top)]
    /\ events (box_footer columns color s) = [Print (colored color bottom)]
    /\ py_len bottom = w
    /\ py_len top = Z.max w (py_len text + 4)
    /\ (w < py_len text + 4 -> top = "┌ " ++ text ++ " ┐").
Proof.
  cbn zeta. pose proof (term_width_min columns) as Hw.
  pose proof (py_len_nonneg text) as Ht.
  unfold box_title, box_footer, print, emit, colored. cbn [events].
  set (w := term_width columns) in *.
  set (label := " " ++ text ++ " ").
  assert (Hl : py_len label = py_len text + 2).
  { unfold label. rewrite !py_len_append. change (py_len " ") with 1. lia. }
  set (side := Z.max 0 ((w - py_len label - 2) / 2)).
  set (right := if Z.ltb (py_len (str_mul "─" side ++ label ++ str_mul "─" side)) (w - 2)
                then str_mul "─" side ++ "─" else str_mul "─" side).
  exists ("┌" ++ str_mul "─" side ++ label ++ right ++ "┐"),
         ("└" ++ str_mul "─" (w - 2) ++ "┘").
  assert (Hdash : py_len "─" = 1) by reflexivity.
  pose proof (Z.le_max_l 0 ((w - py_len label - 2) / 2)) as Hside.
  fold side in Hside.
  split; [|split; [|split; [|split]]].
  - rewrite !str_append_assoc. reflexivity.
  - rewrite !str_append_assoc. reflexivity.
  - rewrite !py_len_append, py_len_str_mul, Hdash.
    change (py_len "└") with 1. change (py_len "┘") with 1. lia.
  - rewrite !py_len_append, py_len_str_mul, Hdash.
    assert (Hr : py_len right = if Z.ltb (2 * side + py_len label) (w - 2)
                                then side + 1 else side).
    { unfold right. rewrite !py_len_append, !py_len_str_mul, Hdash.
      replace (1 * Z.max 0 side + (py_len label + 1 * Z.max 0 side))
        with (2 * side + py_len label) by lia.
      destruct (Z.ltb (2 * side + py_len label) (w - 2));
        rewrite ?py_len_append, py_len_str_mul, Hdash;
        try change (py_len "─") with 1; lia. }
    rewrite Hr. replace (py_len "┌") with 1 by reflexivity.
    replace (py_len "┐") with 1 by reflexivity.
    destruct (Z.ltb_spec (2 * side + py_len label) (w - 2)) as [Hlt|Hge];
      unfold side in *; Z.div_mod_to_equations; lia.
  - intros Hlong.
    assert (Hs : side = 0) by (unfold side; Z.div_mod_to_equations; lia).
    assert (Hright : right = "").
    { unfold right. rewrite Hs. change (str_mul "─" 0) with "".
      destruct (Z.ltb_spec (py_len ("" ++ label ++ "")) (w - 2)) as [Hlt|Hge];
        [|reflexivity].
      rewrite !py_len_append in Hlt. cbn [py_len] in Hlt. lia. }
    rewrite Hright, Hs. change (str_mul "─" 0) with "". unfold label.
    cbn [append]. rewrite !str_append_assoc. reflexivity.
Qed.

(** X14.  [cmd_block] prints the command as it is, on a line of its own,
    between two dim rules as wide as the terminal. *)
Theorem command_printed_verbatim_between_rules columns cmd s :
  exists rule,
    events (cmd_block columns cmd s)
    = [Print (colored DIM rule); Print cmd; Print (colored DIM rule)]
    /\ py_len rule = term_width columns
    /\ final (cmd_block columns cmd s) = s.
Proof.
  pose proof (term_width_min columns) as Hw.
  exists (str_mul "─" (Z.max 10 (term_width columns - 0))).
  split; [reflexivity | split; [|reflexivity]].
  rewrite py_len_str_mul. replace (py_len "─") with 1 by reflexivity. lia.
Qed.

Lemma string_length_pos (s : string) : String.length s = 10%nat -> s <> "".
Proof. intros H ->. discriminate. Qed.

(** X15.  The password the program prints is never empty: a non-empty
    password of the command line is used as it is; an empty one counts as
    absent, and then, as when there is none, the password is the generated
    one, of ten letters and digits.  The draws of [secrets.choice] are
    below their bound. *)
Theorem password_is_never_empty args env :
  (forall i n, (0 < n)%nat -> (randbelow env i n < n)%nat) ->
  let password := choose_password args env in
  password <> ""
  /\ (forall p, args_password args = Some p -> p <> "" -> password = p)
  /\ (args_password args = Some "" ->
      String.length password = 10%nat
      /\ Forall (fun c => is_alnum c = true) (list_ascii_of_string password)).
Proof.
  intros Hrb. cbn zeta. unfold choose_password.
  destruct (@gen_password_shape (randbelow env) 10%nat Hrb) as (Hlen & Hal).
  destruct (args_password args) as [[|c p]|].
  - split; [apply string_length_pos; exact Hlen|].
    split; [intros p Hp Hne; injection Hp as <-; congruence | auto].
  - split; [discriminate|].
    split; [intros p' Hp _; injection Hp as <-; reflexivity | discriminate].
  - split; [apply string_length_pos; exact Hlen|].
    split; discriminate.
Qed.

Lemma password_is_never_empty_witness :
  let args := with_password (Some "") example_args in
  (forall i n, (0 < n)%nat -> (randbelow (example_env None) i n < n)%nat)
  /\ choose_password args (example_env None) <> "".
Proof.
  cbv zeta.
  assert (Hrb : forall i n, (0 < n)%nat -> (randbelow (example_env None) i n < n)%nat).
  { intros i n Hn. cbn [randbelow example_env]. apply Nat.mod_upper_bound. lia. }
  split; [exact Hrb|].
  exact (proj1 (password_is_never_empty (with_password (Some "") example_args)
                  (example_env None) Hrb)).
Defined.

Local Close Scope string_scope.

(** ** An upload phase that sees probes only *)

(** X16.  Probes never end the upload phase: when every connection that
    comes is a probe, [accept_upload] goes back to [accept] after each of
    them and blocks there for ever, with the listening socket open; nothing
    is staged and the byte count stays at zero. *)
Theorem only_probes_never_end_the_upload port probes s :
  Forall (fun conn => is_probe conn = true) probes ->
  let r := accept_upload port None (map Accepted probes) s in
  result r = Hangs
  /\ events r = Listen port :: flat_map (fun _ => probe_trace) probes
  /\ staged (final r) = staged s
  /\ size (final r) = 0.
Proof.
  intros Hp. cbn zeta. rewrite accept_upload_run. cbn zeta.
  destruct probes as [|conn probes].
  - cbn. auto.
  - rewrite <- (app_nil_r (map Accepted (conn :: probes))).
    rewrite (accept_loop_probes (probes := conn :: probes) [] (set_size 0 s) Hp)
      by discriminate.
    cbn zeta. cbn [accept_loop hang result final events]. rewrite app_nil_r.
    cbn [staged size set_conn_timeout set_size]. auto.
Qed.

Lemma only_probes_never_end_the_upload_witness :
  let probes := [[]; [Chunk []]; [RecvRaises socket_timeout]] in
  Forall (fun conn => is_probe conn = true) probes
  /\ result (accept_upload 9000 None (map Accepted probes) initial_state) = Hangs.
Proof.
  cbv zeta.
  assert (Hp : Forall (fun conn => is_probe conn = true)
                 [[]; [Chunk []]; [RecvRaises socket_timeout]])
    by (repeat constructor).
  split; [exact Hp|].
  exact (proj1 (only_probes_never_end_the_upload 9000 initial_state Hp)).
Defined.
